(** * Marketplace and discussion scrapers: extraction and normalisation

    A shallow embedding of [src/scrapers/facebook-marketplace.ts] (the
    marketplace scraper, lines 1-339, and the discussion scraper that follows
    it, lines 340-592) together with the properties its specification states.

    Conventions of the model.
    - A JavaScript string is a Rocq [string]: a sequence of code units, here
      the code units below 256.  [length], [slice] and the regular expressions
      count code units, as the source does.
    - A JavaScript number is an integer [Z] (exact, no rounding).  Built-ins
      that this model of strings and numbers cannot define ([JSON.parse],
      [parseFloat], [encodeURIComponent], the comparison of a string with a
      number) are fields of [Runtime]: every theorem holds for every runtime.
    - The transport ([proxyFetch]) is an external collaborator: an operation
      is a function of the response it obtained ([searchReddit], whose
      request a property is about, is a function of the transport).
    - An operation returns ([Ret]), throws ([Throws]) or exhausts the
      iteration budget of a loop or recursion ([Diverges]). *)

From Stdlib Require Import String Ascii ZArith List Bool Arith Lia.
From Stdlib Require Import DecimalString.
Import ListNotations.

Local Open Scope list_scope.
Local Open Scope string_scope.

Set Implicit Arguments.
Set Warnings "-register-all".

(* ================================================================== *)
(** ** Outcomes of a call *)

Inductive error : Type :=
| TypeError
| Error (message : string).

Inductive outcome (A : Type) : Type :=
| Ret (a : A)
| Throws (e : error)
| Diverges.

Arguments Ret {A} a.
Arguments Throws {A} e.
Arguments Diverges {A}.

Definition bind {A B : Type} (m : outcome A) (f : A -> outcome B) : outcome B :=
  match m with
  | Ret a => f a
  | Throws e => Throws e
  | Diverges => Diverges
  end.

Declare Scope js_scope.
Delimit Scope js_scope with js.
Notation "x <- m ;; k" := (bind m (fun x => k))
  (at level 61, m at next level, right associativity) : js_scope.
Local Open Scope js_scope.

Definition of_option {A : Type} (o : option A) : outcome A :=
  match o with
  | Some a => Ret a
  | None => Diverges
  end.

(** [for (const x of l) st = body(x, st)] *)
Fixpoint for_of {A S : Type} (l : list A) (st : S) (body : A -> S -> outcome S)
  : outcome S :=
  match l with
  | [] => Ret st
  | x :: l' => st' <- body x st ;; for_of l' st' body
  end.

(** [l.map(f)], where [f] may throw. *)
Fixpoint array_map {A B : Type} (f : A -> outcome B) (l : list A) : outcome (list B) :=
  match l with
  | [] => Ret []
  | x :: l' => y <- f x ;; ys <- array_map f l' ;; Ret (y :: ys)
  end.

(* ================================================================== *)
(** ** Strings *)

Definition DQUOTE : ascii := "034"%char.
Definition Q : string := String DQUOTE "".
(** [quoted s] is [s] between two double quotes. *)
Definition quoted (s : string) : string := Q ++ s ++ Q.

Fixpoint take (n : nat) (s : string) : string :=
  match n, s with
  | S n', String a s' => String a (take n' s')
  | _, _ => ""
  end.

Fixpoint drop (n : nat) (s : string) : string :=
  match n, s with
  | S n', String _ s' => drop n' s'
  | _, _ => s
  end.

(** The bounds of [x.slice(start, end)] on a receiver of length [len]
    (ECMAScript: a negative bound counts from the end). *)
Definition slice_bound (len i : Z) : Z :=
  if (i <? 0)%Z then Z.max (len + i) 0 else Z.min i len.

Definition string_slice (s : string) (from to : Z) : string :=
  let len := Z.of_nat (String.length s) in
  let k := slice_bound len from in
  let final := slice_bound len to in
  take (Z.to_nat (final - k)) (drop (Z.to_nat k) s).

Definition array_slice {A : Type} (l : list A) (from to : Z) : list A :=
  let len := Z.of_nat (List.length l) in
  let k := slice_bound len from in
  let final := slice_bound len to in
  firstn (Z.to_nat (final - k)) (skipn (Z.to_nat k) l).

Definition is_digit (a : ascii) : bool :=
  let n := nat_of_ascii a in ((48 <=? n) && (n <=? 57))%nat.

(** White space and line terminators among the code units below 256. *)
Definition is_space (a : ascii) : bool :=
  let n := nat_of_ascii a in
  (((9 <=? n) && (n <=? 13)) || (n =? 32) || (n =? 160))%nat.

Fixpoint trim_start (s : string) : string :=
  match s with
  | String a s' => if is_space a then trim_start s' else s
  | EmptyString => ""
  end.

Fixpoint string_rev (s : string) : string :=
  match s with
  | EmptyString => ""
  | String a s' => string_rev s' ++ String a ""
  end.

(** [s.trim()] *)
Definition trim (s : string) : string :=
  string_rev (trim_start (string_rev (trim_start s))).

Fixpoint starts_with (p s : string) : bool :=
  match p, s with
  | EmptyString, _ => true
  | String a p', String b s' => Ascii.eqb a b && starts_with p' s'
  | _, _ => false
  end.

Definition ends_with (s suffix : string) : bool :=
  starts_with (string_rev suffix) (string_rev s).

(** [String(n)] for an integer [n]. *)
Definition Z_to_string (n : Z) : string := NilZero.string_of_int (Z.to_int n).

(** The characters of a string, as [for ... of] yields them. *)
Fixpoint chars (s : string) : list string :=
  match s with
  | EmptyString => []
  | String a s' => String a "" :: chars s'
  end.

(* ================================================================== *)
(** ** Values: what [JSON.parse] builds, and [undefined] *)

Inductive val : Type :=
| VUndef
| VNull
| VBool (b : bool)
| VNum (n : Z)
| VStr (s : string)
| VArr (elements : list val)
| VObj (fields : list (string * val)).

Definition truthy (v : val) : bool :=
  match v with
  | VUndef | VNull => false
  | VBool b => b
  | VNum n => negb (n =? 0)%Z
  | VStr s => negb (s =? "")
  | VArr _ | VObj _ => true
  end.

Definition nullish (v : val) : bool :=
  match v with
  | VUndef | VNull => true
  | _ => false
  end.

Fixpoint lookup (k : string) (o : list (string * val)) : val :=
  match o with
  | [] => VUndef
  | (k', v) :: o' => if k' =? k then v else lookup k o'
  end.

(** [v.k] for the property names the source reads: of an object its own
    field, of an array or a string only [length]; reading a property of
    [null] or [undefined] throws. *)
Definition get (v : val) (k : string) : outcome val :=
  match v with
  | VUndef | VNull => Throws TypeError
  | VObj o => Ret (lookup k o)
  | VArr l => Ret (if k =? "length" then VNum (Z.of_nat (List.length l)) else VUndef)
  | VStr s => Ret (if k =? "length" then VNum (Z.of_nat (String.length s)) else VUndef)
  | VBool _ | VNum _ => Ret VUndef
  end.

(** [v?.k] *)
Definition optget (v : val) (k : string) : outcome val :=
  if nullish v then Ret VUndef else get v k.

(** [v?.[0]] *)
Definition optget0 (v : val) : val :=
  match v with
  | VArr (x :: _) => x
  | VStr (String a _) => VStr (String a "")
  | VObj o => lookup "0" o
  | _ => VUndef
  end.

(** [a || b] and [a ?? b]; the right operand is evaluated only when needed. *)
Definition or_else (a b : outcome val) : outcome val :=
  x <- a ;; if truthy x then Ret x else b.

Definition coalesce (a b : outcome val) : outcome val :=
  x <- a ;; if nullish x then b else Ret x.

Infix "|||" := or_else (at level 50, left associativity) : js_scope.
Infix "???" := coalesce (at level 50, left associativity) : js_scope.

(** [a === b].  Values are trees built by [JSON.parse]: two objects or arrays
    met at different places are different objects. *)
Definition strict_eq (a b : val) : bool :=
  match a, b with
  | VUndef, VUndef => true
  | VNull, VNull => true
  | VBool x, VBool y => Bool.eqb x y
  | VNum x, VNum y => (x =? y)%Z
  | VStr x, VStr y => (x =? y)
  | _, _ => false
  end.

(** [typeof v === 'object'] *)
Definition typeof_object (v : val) : bool :=
  match v with
  | VNull | VArr _ | VObj _ => true
  | _ => false
  end.

(** [String(v)], as a template literal or [+] with a string applies it, for
    the values it prints without running code of the value: a primitive
    prints as here (an integer in plain decimal digits), and so do an object
    and an array that have no [toString] or [valueOf] field of their own
    anywhere in them.  For an object that has such a field the conversion
    may throw a [TypeError]; a theorem that states that a call returns takes
    the printed fields to be primitive. *)
Fixpoint ToString (v : val) : string :=
  match v with
  | VUndef => "undefined"
  | VNull => "null"
  | VBool true => "true"
  | VBool false => "false"
  | VNum n => Z_to_string n
  | VStr s => s
  | VArr l =>
      (fix join (l : list val) : string :=
         match l with
         | [] => ""
         | x :: l' =>
             (if nullish x then "" else ToString x) ++
             match l' with [] => "" | _ => "," ++ join l' end
         end) l
  | VObj _ => "[object Object]"
  end.

(** [v.slice(0, to)]: arrays and strings have the method; on any other parsed
    value the property is missing or is not a function. *)
Definition call_slice (v : val) (to : Z) : outcome val :=
  match v with
  | VArr l => Ret (VArr (array_slice l 0 to))
  | VStr s => Ret (VStr (string_slice s 0 to))
  | _ => Throws TypeError
  end.

(** The values [for (const x of v)] visits. *)
Definition iterate (v : val) : outcome (list val) :=
  match v with
  | VArr l => Ret l
  | VStr s => Ret (map VStr (chars s))
  | _ => Throws TypeError
  end.

(** The built-ins the integer model does not define. *)
Record Runtime : Type := {
  (** [JSON.parse(text)]; [None] when it throws a SyntaxError. *)
  JSON_parse : string -> option val;
  (** [parseFloat(text)] *)
  parseFloat : string -> val;
  (** [s <= m] for a string [s] and a number [m] (the string is converted
      by ToNumber; the comparison is false when that gives NaN). *)
  string_le_number : string -> Z -> bool;
  (** [encodeURIComponent(text)] *)
  encodeURIComponent : string -> string
}.

Section Comparison.
Variable rt : Runtime.

(** [v <= m] for a number [m]; an object or an array is compared by its
    text, as [ToString] prints it. *)
Definition js_le (v : val) (m : Z) : bool :=
  match v with
  | VUndef => false
  | VNull => (0 <=? m)%Z
  | VBool b => ((if b then 1 else 0) <=? m)%Z
  | VNum n => (n <=? m)%Z
  | VStr s => string_le_number rt s m
  | VArr _ | VObj _ => string_le_number rt (ToString v) m
  end.

End Comparison.

(* ================================================================== *)
(** ** Regular expressions

    The patterns of the source, with the backtracking semantics of
    ECMAScript's matcher: alternatives are tried in priority order (a greedy
    repetition first iterates, a lazy one first stops), the first success
    wins, and an iteration of a repetition that consumes nothing fails. *)

Inductive regex : Type :=
| Empty
| Class (p : ascii -> bool)
| Seq (r1 r2 : regex)
| Star (greedy : bool) (r : regex)
| Group (n : nat) (r : regex)
| EndOfInput.

(** A single character, a literal text, [r+] and [r+?]. *)
Definition Chr (a : ascii) : regex := Class (Ascii.eqb a).

Fixpoint Lit (s : string) : regex :=
  match s with
  | EmptyString => Empty
  | String a s' => Seq (Chr a) (Lit s')
  end.

Definition Plus (r : regex) : regex := Seq r (Star true r).
Definition PlusLazy (r : regex) : regex := Seq r (Star false r).

(** The concatenation of the parts of a pattern, left to right. *)
Definition Concat (parts : list regex) : regex := fold_right Seq Empty parts.

(** Character classes of the source's patterns. *)
Definition any_char : ascii -> bool := fun _ => true.
Definition non_space : ascii -> bool := fun a => negb (is_space a).
Definition none_of (s : string) : ascii -> bool :=
  fun a => negb (existsb (Ascii.eqb a) (list_ascii_of_string s)).
Definition digit_or_dot : ascii -> bool :=
  fun a => is_digit a || Ascii.eqb a "."%char.

(** Captures: group number and captured text, the latest first. *)
Definition captures : Type := list (nat * string).
Definition continuation : Type := string -> captures -> option (captures * string).

(** [r*] (greedy) or [r*?] (lazy) for a matcher [m] of [r]; [n] bounds the
    number of iterations, each of which consumes at least one character. *)
Fixpoint repeat_match (m : string -> captures -> continuation -> option (captures * string))
    (greedy : bool) (n : nat) (s : string) (c : captures) (k : continuation)
  : option (captures * string) :=
  let again :=
    match n with
    | O => None
    | S n' =>
        m s c (fun s' c' =>
                 if (String.length s' <? String.length s)%nat
                 then repeat_match m greedy n' s' c' k
                 else None)
    end in
  if greedy
  then match again with Some res => Some res | None => k s c end
  else match k s c with Some res => Some res | None => again end.

Fixpoint rmatch (r : regex) (s : string) (c : captures) (k : continuation)
  : option (captures * string) :=
  match r with
  | Empty => k s c
  | Class p =>
      match s with
      | String a s' => if p a then k s' c else None
      | EmptyString => None
      end
  | Seq r1 r2 => rmatch r1 s c (fun s1 c1 => rmatch r2 s1 c1 k)
  | Star greedy r1 => repeat_match (rmatch r1) greedy (String.length s) s c k
  | Group n r1 =>
      rmatch r1 s c
        (fun s' c' => k s' ((n, take (String.length s - String.length s') s) :: c'))
  | EndOfInput =>
      match s with
      | EmptyString => k s c
      | String _ _ => None
      end
  end.

Record MatchResult : Type := {
  matchIndex : nat;
  endIndex : nat;
  groups : captures
}.

Fixpoint capture (n : nat) (c : captures) : string :=
  match c with
  | [] => ""
  | (n', s) :: c' => if (n' =? n)%nat then s else capture n c'
  end.

(** [m[n]] *)
Definition group (n : nat) (m : MatchResult) : string := capture n (groups m).

(** The leftmost match in [s], the suffix of the input that starts at
    index [i]. *)
Fixpoint search (r : regex) (s : string) (i : nat) : option MatchResult :=
  match rmatch r s [] (fun s' c' => Some (c', s')) with
  | Some (c', s') =>
      Some {| matchIndex := i;
              endIndex := i + (String.length s - String.length s');
              groups := c' |}
  | None =>
      match s with
      | EmptyString => None
      | String _ s1 => search r s1 (S i)
      end
  end.

(** [r.exec(input)] for a regular expression whose [lastIndex] is
    [lastIndex]; the new [lastIndex] of a global one is [endIndex]. *)
Definition exec (r : regex) (input : string) (lastIndex : nat) : option MatchResult :=
  if (lastIndex <=? String.length input)%nat
  then search r (drop lastIndex input) lastIndex
  else None.

(** [input.match(r)] for a regular expression without the [g] flag. *)
Definition string_match (r : regex) (input : string) : option MatchResult :=
  exec r input 0.

(** [input.replace(r, replacement)] for a regular expression without the
    [g] flag and a replacement without [$]: the first match is replaced. *)
Definition replace_first (r : regex) (input replacement : string) : string :=
  match string_match r input with
  | Some m => take (matchIndex m) input ++ replacement ++ drop (endIndex m) input
  | None => input
  end.

(** [while ((m = r.exec(input)) !== null && guard(st)) st = body(m, st)]
    for a global [r], started with [lastIndex]; [None] when [fuel] iterations
    do not end the loop. *)
Fixpoint regex_while {S : Type} (fuel : nat) (r : regex) (input : string)
    (lastIndex : nat) (guard : S -> bool) (body : MatchResult -> S -> S) (st : S)
  : option S :=
  match fuel with
  | O => None
  | Datatypes.S fuel' =>
      match exec r input lastIndex with
      | None => Some st
      | Some m =>
          if guard st
          then regex_while fuel' r input (endIndex m) guard body (body m st)
          else Some st
      end
  end.

(* ================================================================== *)
(** ** The transport's response *)

Record Response : Type := {
  ok : bool;
  status : Z;
  statusText : string;
  (** [await response.text()] *)
  text : string;
  (** [await response.json()] *)
  json : outcome val
}.

(** [proxyFetch(url, options)] for the fixed options of a call site: the
    response it resolves to, or the error it rejects with. *)
Definition Transport : Type := string -> outcome Response.

(* ================================================================== *)
(** ** Marketplace scraper (lines 1-339) *)

Record Seller : Type := {
  seller_name : string;
  joined : option string;
  rating : option string;
  profile_url : option string
}.

Record MarketplaceListing : Type := {
  listing_id : val;
  listing_title : val;
  price : val;
  currency : val;
  location : string;
  seller : Seller;
  condition : option string;
  posted_at : string;
  images : list string;
  listing_url : string;
  description : string;
  category : option string;
  is_available : bool
}.

Record MarketplaceCategory : Type := {
  category_id : string;
  category_name : string;
  category_url : string
}.

Record SearchResult : Type := {
  results : list MarketplaceListing;
  total_results : nat
}.

Record NewListings : Type := {
  new_results : list MarketplaceListing;
  since : string
}.

Definition white_space : regex := Star true (Class is_space).

(** [/\{"marketplace_search\S*?"\s*:\s*({.+?})\s*,\s*"extensions"/s] (line 50) *)
Definition relayRegex : regex :=
  Concat [ Lit ("{" ++ Q ++ "marketplace_search"); Star false (Class non_space);
           Chr DQUOTE; white_space; Chr ":"; white_space;
           Group 1 (Concat [Chr "{"; PlusLazy (Class any_char); Chr "}"]);
           white_space; Chr ","; white_space; Lit (quoted "extensions") ].

(** [/data-sjs>({.+?})<\/script>/s] (line 56) *)
Definition cometRegex : regex :=
  Concat [ Lit "data-sjs>";
           Group 1 (Concat [Chr "{"; PlusLazy (Class any_char); Chr "}"]);
           Lit "</script>" ].

(** [/"listing_id":"(\d+)"[^}]*"listing_title":"([^"]+)"[^}]*"listing_price":\{[^}]*"amount":"([\d.]+)"[^}]*"currency":"([^"]+)"/g]
    (line 62) *)
Definition listingRegex : regex :=
  Concat [ Lit (quoted "listing_id" ++ ":" ++ Q); Group 1 (Plus (Class is_digit)); Chr DQUOTE;
           Star true (Class (none_of "}"));
           Lit (quoted "listing_title" ++ ":" ++ Q); Group 2 (Plus (Class (none_of Q))); Chr DQUOTE;
           Star true (Class (none_of "}"));
           Lit (quoted "listing_price" ++ ":{");
           Star true (Class (none_of "}"));
           Lit (quoted "amount" ++ ":" ++ Q); Group 3 (Plus (Class digit_or_dot)); Chr DQUOTE;
           Star true (Class (none_of "}"));
           Lit (quoted "currency" ++ ":" ++ Q); Group 4 (Plus (Class (none_of Q))); Chr DQUOTE ].

(** [/"image":\{"uri":"([^"]+marketplace[^"]+)"/g] (line 93) *)
Definition imageRegex : regex :=
  Concat [ Lit (quoted "image" ++ ":{" ++ quoted "uri" ++ ":" ++ Q);
           Group 1 (Concat [Plus (Class (none_of Q)); Lit "marketplace"; Plus (Class (none_of Q))]);
           Chr DQUOTE ].

(** The pattern of line 97, [/\\\/\\\/g/]: its body is [\\ \/ \\ \/ g] and it
    has no flag, so it matches the five characters backslash, slash,
    backslash, slash, g. *)
Definition escapedSlashRegex : regex := Lit "\/\/g".

(** [/marketplace\/item\/(\d+)/g] (lines 181, 321) *)
Definition cardRegex : regex :=
  Concat [ Lit "marketplace/item/"; Group 1 (Plus (Class is_digit)) ].

(** [/marketplace\/category\/([^"?]+)"[^>]*>\s*(?:<[^>]+>)*([^<]+)/g] (line 250) *)
Definition catRegex : regex :=
  Concat [ Lit "marketplace/category/"; Group 1 (Plus (Class (none_of (Q ++ "?")))); Chr DQUOTE;
           Star true (Class (none_of ">")); Chr ">"; white_space;
           Star true (Concat [Chr "<"; Plus (Class (none_of ">")); Chr ">"]);
           Group 2 (Plus (Class (none_of "<"))) ].

(** [/\/$/] (line 254) *)
Definition trailingSlashRegex : regex := Concat [ Chr "/"; EndOfInput ].

(** The [images] field of [parseListingFromHtml] (lines 92-98 and 116). *)
Definition parseListingFromHtml_images (html : string) : outcome (list string) :=
  of_option
    (regex_while (S (String.length html)) imageRegex html 0
       (fun images : list string => (List.length images <? 10)%nat)
       (fun imgMatch images =>
          (images ++ [replace_first escapedSlashRegex (group 1 imgMatch) "/"])%list)
       []).

Definition no_seller : Seller :=
  {| seller_name := ""; joined := None; rating := None; profile_url := None |}.

(** [location || ''] for the optional argument. *)
Definition location_or_empty (location : option string) : string :=
  match location with
  | Some s => s
  | None => ""
  end.

(** The record pushed for an entry of the structured state (lines 163-177,
    304-318). *)
Definition listing_of_item (id title price currency : val) (location : string)
  : MarketplaceListing :=
  {| listing_id := id; listing_title := title; price := price; currency := currency;
     location := location; seller := no_seller; condition := None; posted_at := "";
     images := [];
     listing_url := "https://www.facebook.com/marketplace/item/" ++ ToString id;
     description := ""; category := None; is_available := true |}.

(** The record pushed for an item link (lines 188-202, 328-334). *)
Definition listing_of_card (listingId : string) (location : string) : MarketplaceListing :=
  {| listing_id := VStr listingId; listing_title := VStr ""; price := VNum 0;
     currency := VStr "USD"; location := location; seller := no_seller;
     condition := None; posted_at := ""; images := [];
     listing_url := "https://www.facebook.com/marketplace/item/" ++ listingId;
     description := ""; category := None; is_available := true |}.

(** [seen.has(x)] for a set of strings kept in insertion order. *)
Definition set_has (seen : list string) (x : string) : bool :=
  existsb (String.eqb x) seen.

Section Marketplace.
Variable rt : Runtime.

(** [try { return JSON.parse(m[1]); } catch {}] when [m] is a match. *)
Definition try_parse (m : option MatchResult) : option val :=
  match m with
  | Some m => JSON_parse rt (group 1 m)
  | None => None
  end.

(** Lines 47-76. *)
Definition extractFbData (html : string) : outcome val :=
  match try_parse (string_match relayRegex html) with
  | Some data => Ret data
  | None =>
      match try_parse (string_match cometRegex html) with
      | Some data => Ret data
      | None =>
          listings <- of_option
            (regex_while (S (String.length html)) listingRegex html 0
               (fun _ : list val => true)
               (fun m listings =>
                  (listings ++ [VObj [("id", VStr (group 1 m));
                                      ("title", VStr (group 2 m));
                                      ("price", parseFloat rt (group 3 m));
                                      ("currency", VStr (group 4 m))]])%list)
               []) ;;
          Ret (if (0 <? List.length listings)%nat
               then VObj [("extracted_listings", VArr listings)]
               else VNull)
      end
  end.

(** The two branches that fill [results] (lines 159-204 and 300-336). *)
Definition collect_listings (html : string) (location : string) (limit : Z)
  : outcome (list MarketplaceListing) :=
  fbData <- extractFbData html ;;
  extracted <- optget fbData "extracted_listings" ;;
  if truthy extracted then
    sliced <- call_slice extracted limit ;;
    items <- iterate sliced ;;
    for_of items []
      (fun item results =>
         id <- get item "id" ;;
         title <- get item "title" ;;
         price <- get item "price" ;;
         currency <- get item "currency" ;;
         Ret (results ++ [listing_of_item id title price currency location])%list)
  else
    st <- of_option
      (regex_while (S (String.length html)) cardRegex html 0
         (fun st : list string * list MarketplaceListing =>
            (Z.of_nat (List.length (snd st)) <? limit)%Z)
         (fun cardMatch st =>
            let listingId := group 1 cardMatch in
            if set_has (fst st) listingId then st
            else ((fst st ++ [listingId])%list,
                  (snd st ++ [listing_of_card listingId location])%list))
         ([], [])) ;;
    Ret (snd st).

(** Lines 127-207, from the response on. *)
Definition searchMarketplace (response : Response) (location : option string) (limit : Z)
  : outcome SearchResult :=
  if negb (ok response)
  then Throws (Error ("FB Marketplace search failed: " ++ Z_to_string (status response)))
  else
    results <- collect_listings (text response) (location_or_empty location) limit ;;
    Ret {| results := array_slice results 0 limit;
           total_results := List.length results |}.

(** Lines 270-339, from the response on; [sinceTime] is the timestamp the
    source computes from the clock. *)
Definition getNewListings (response : Response) (sinceTime : string) (limit : Z)
  : outcome NewListings :=
  if negb (ok response)
  then Throws (Error ("FB Marketplace new listings failed: " ++ Z_to_string (status response)))
  else
    results <- collect_listings (text response) "" limit ;;
    Ret {| new_results := array_slice results 0 limit; since := sinceTime |}.

End Marketplace.

(** Lines 233-265, from the response on. *)
Definition getCategories (response : Response) : outcome (list MarketplaceCategory) :=
  if negb (ok response)
  then Throws (Error ("FB Marketplace categories failed: " ++ Z_to_string (status response)))
  else
    let html := text response in
    st <- of_option
      (regex_while (S (String.length html)) catRegex html 0
         (fun _ : list string * list MarketplaceCategory => true)
         (fun m st =>
            let slug := replace_first trailingSlashRegex (group 1 m) "" in
            if set_has (fst st) slug then st
            else ((fst st ++ [slug])%list,
                  (snd st ++ [{| category_id := slug;
                                 category_name := trim (group 2 m);
                                 category_url :=
                                   "https://www.facebook.com/marketplace/category/" ++ slug |}])%list))
         ([], [])) ;;
    Ret (snd st).

(* ================================================================== *)
(** ** Discussion scraper (lines 340-592) *)

Record RedditPost : Type := {
  post_id : val;
  post_title : val;
  subreddit : val;
  post_author : val;
  post_score : val;
  num_comments : val;
  post_url : val;
  permalink : val;
  post_created_utc : val;
  body_preview : val;
  is_self : val;
  thumbnail : val;
  link_flair_text : val;
  upvote_ratio : val;
  post_awards : val
}.

Record RedditComment : Type := {
  comment_id : val;
  comment_author : val;
  body : val;
  comment_score : val;
  comment_created_utc : val;
  depth : val;
  is_op : bool;
  comment_awards : val;
  replies_count : val
}.

Record RedditThread : Type := {
  post : RedditPost;
  comments : list RedditComment;
  total_comments : val
}.

Record RedditSearch : Type := {
  search_results : list RedditPost;
  search_total_results : nat
}.

(** The nesting height of a value, and of the elements of an array. *)
Fixpoint vheight (v : val) : nat :=
  match v with
  | VArr l => S (fold_right (fun x m => Nat.max (vheight x) m) 0 l)
  | VObj o => S (fold_right (fun kv m => Nat.max (vheight (snd kv)) m) 0 o)
  | _ => 0
  end.

Definition lheight (l : list val) : nat :=
  fold_right (fun x m => Nat.max (vheight x) m) 0 l.

Definition REDDIT_BASE : string := "https://www.reddit.com".

(** [child.data?.replies?.data?.children] (line 452) *)
Definition replies_of (child : val) : outcome val :=
  data <- get child "data" ;;
  r <- optget data "replies" ;;
  d <- optget r "data" ;;
  optget d "children".

Section Discussion.
Variable rt : Runtime.

(** Lines 403-406. *)
Definition truncate (text : val) (max : Z) : outcome val :=
  stop <- (if negb (truthy text) then Ret true
           else len <- get text "length" ;; Ret (js_le rt len max)) ;;
  if stop : bool then Ret (if truthy text then text else VStr "")
  else
    sliced <- call_slice text max ;;
    Ret (VStr (ToString sliced ++ "...")).

(** Lines 408-427. *)
Definition parsePost (data : val) : outcome RedditPost :=
  d <- optget data "data" ||| Ret data ;;
  id <- get d "id" ||| get d "name" ||| Ret (VStr "") ;;
  title <- get d "title" ||| Ret (VStr "") ;;
  subreddit <- get d "subreddit_name_prefixed" |||
               (s <- get d "subreddit" ||| Ret (VStr "") ;;
                Ret (VStr ("r/" ++ ToString s))) ;;
  author <- get d "author" ||| Ret (VStr "[deleted]") ;;
  score <- get d "score" ??? Ret (VNum 0) ;;
  num_comments <- get d "num_comments" ??? Ret (VNum 0) ;;
  url <- get d "url" ||| Ret (VStr "") ;;
  permalink <- (p <- get d "permalink" ;;
                Ret (if truthy p then VStr ("https://reddit.com" ++ ToString p)
                     else VStr "")) ;;
  created_utc <- get d "created_utc" ??? Ret (VNum 0) ;;
  body_preview <- (selftext <- get d "selftext" ||| Ret (VStr "") ;;
                   truncate selftext 500) ;;
  is_self <- get d "is_self" ??? Ret (VBool false) ;;
  thumbnail <- (t <- get d "thumbnail" ;;
                Ret (if truthy t && negb (strict_eq t (VStr "self"))
                        && negb (strict_eq t (VStr "default"))
                     then t else VNull)) ;;
  link_flair_text <- get d "link_flair_text" ||| Ret VNull ;;
  upvote_ratio <- get d "upvote_ratio" ??? Ret (VNum 0) ;;
  awards <- get d "total_awards_received" ??? Ret (VNum 0) ;;
  Ret {| post_id := id;
         post_title := title;
         subreddit := subreddit;
         post_author := author;
         post_score := score;
         num_comments := num_comments;
         post_url := url;
         permalink := permalink;
         post_created_utc := created_utc;
         body_preview := body_preview;
         is_self := is_self;
         thumbnail := thumbnail;
         link_flair_text := link_flair_text;
         upvote_ratio := upvote_ratio;
         post_awards := awards |}.

(** Lines 429-442. *)
Definition parseComment (data : val) (opAuthor : val) : outcome RedditComment :=
  d <- optget data "data" ||| Ret data ;;
  id <- get d "id" ||| get d "name" ||| Ret (VStr "") ;;
  author <- get d "author" ||| Ret (VStr "[deleted]") ;;
  body <- (b <- get d "body" ||| Ret (VStr "") ;; truncate b 1000) ;;
  score <- get d "score" ??? Ret (VNum 0) ;;
  created_utc <- get d "created_utc" ??? Ret (VNum 0) ;;
  depth <- get d "depth" ??? Ret (VNum 0) ;;
  is_op <- (a <- get d "author" ;; Ret (strict_eq a opAuthor)) ;;
  awards <- get d "total_awards_received" ??? Ret (VNum 0) ;;
  replies_count <- (replies <- get d "replies" ;;
                    if typeof_object replies
                    then (r <- optget replies "data" ;;
                          c <- optget r "children" ;;
                          optget c "length") ??? Ret (VNum 0)
                    else Ret (VNum 0)) ;;
  Ret {| comment_id := id;
         comment_author := author;
         body := body;
         comment_score := score;
         comment_created_utc := created_utc;
         depth := depth;
         is_op := is_op;
         comment_awards := awards;
         replies_count := replies_count |}.

(** Lines 444-458; [budget] bounds the depth of the nested calls. *)
Fixpoint flattenComments_rec (budget : nat) (children : list val) (opAuthor : val)
    (maxDepth : Z) : outcome (list RedditComment) :=
  match budget with
  | O => Diverges
  | S budget' =>
      for_of children []
        (fun child results =>
           kind <- get child "kind" ;;
           if strict_eq kind (VStr "more") then Ret results
           else
             comment <- parseComment child opAuthor ;;
             let results :=
               if js_le rt (depth comment) maxDepth
               then (results ++ [comment])%list else results in
             replies <- replies_of child ;;
             match replies with
             | VArr l =>
                 nested <- flattenComments_rec budget' l opAuthor maxDepth ;;
                 Ret (results ++ nested)%list
             | _ => Ret results
             end)
  end.

(** The body of the loop of lines 446-456, with nested calls of budget
    [budget]. *)
Definition flatten_step (budget : nat) (opAuthor : val) (maxDepth : Z)
    (child : val) (results : list RedditComment) : outcome (list RedditComment) :=
  kind <- get child "kind" ;;
  if strict_eq kind (VStr "more") then Ret results
  else
    comment <- parseComment child opAuthor ;;
    let results :=
      if js_le rt (depth comment) maxDepth
      then (results ++ [comment])%list else results in
    replies <- replies_of child ;;
    match replies with
    | VArr l =>
        nested <- flattenComments_rec budget l opAuthor maxDepth ;;
        Ret (results ++ nested)%list
    | _ => Ret results
    end.

(** [flattenComments(children, opAuthor, maxDepth)], with a budget above the
    height of [children], which is enough (see [flattenComments_terminates]). *)
Definition flattenComments (children : list val) (opAuthor : val) (maxDepth : Z)
  : outcome (list RedditComment) :=
  flattenComments_rec (S (lheight children)) children opAuthor maxDepth.

(** The address of lines 470-471. *)
Definition searchReddit_url (query subreddit sort time : string) (limit : Z) : string :=
  let sub := if subreddit =? "all" then ""
             else "/r/" ++ encodeURIComponent rt subreddit in
  REDDIT_BASE ++ sub ++ "/search.json?q=" ++ encodeURIComponent rt query
    ++ "&sort=" ++ sort ++ "&t=" ++ time
    ++ "&limit=" ++ Z_to_string (Z.min limit 100)
    ++ "&restrict_sr=" ++ (if negb (subreddit =? "all") then "on" else "off").

(** Lines 463-490, for the transport [proxyFetch]. *)
Definition searchReddit (proxyFetch : Transport) (query subreddit sort time : string)
    (limit : Z) : outcome RedditSearch :=
  response <- proxyFetch (searchReddit_url query subreddit sort time limit) ;;
  if negb (ok response)
  then Throws (Error ("Reddit search failed: " ++ Z_to_string (status response)
                      ++ " " ++ statusText response))
  else
    json <- json response ;;
    children <- (d <- optget json "data" ;; optget d "children") ||| Ret (VArr []) ;;
    posts <- match children with
             | VArr l => array_map parsePost l
             | _ => Throws TypeError
             end ;;
    Ret {| search_results := posts; search_total_results := List.length posts |}.

(** [threadId.replace(/^t3_/, '')] (line 561) *)
Definition cleanId (threadId : string) : string :=
  if starts_with "t3_" threadId then drop 3 threadId else threadId.

(** Lines 556-592, from the response on. *)
Definition getThread (threadId : string) (response : Response) : outcome RedditThread :=
  if negb (ok response)
  then Throws (Error ("Thread fetch failed for " ++ cleanId threadId ++ ": "
                      ++ Z_to_string (status response)))
  else
    json <- json response ;;
    match json with
    | VArr (json0 :: json1 :: _) =>
        postData <- (d <- optget json0 "data" ;;
                     c <- optget d "children" ;;
                     Ret (optget0 c)) ;;
        post <- parsePost postData ;;
        let opAuthor := post_author post in
        commentChildren <- (d <- optget json1 "data" ;; optget d "children")
                           ||| Ret (VArr []) ;;
        children <- iterate commentChildren ;;
        comments <- flattenComments children opAuthor 3 ;;
        Ret {| post := post; comments := comments; total_comments := num_comments post |}
    | _ => Throws (Error ("Invalid thread response for " ++ cleanId threadId))
    end.

End Discussion.

(** A payload [d] wrapped in a node: [{kind, data: d}]. *)
Definition wrapped (kind d : val) : val := VObj [("kind", kind); ("data", d)].

(** *** The traversal the specification describes

    A continuation marker is a node of kind ['more']; the loaded children of
    a node are the elements of the array at [data.replies.data.children]. *)

Definition is_more (child : val) : bool :=
  match get child "kind" with
  | Ret kind => strict_eq kind (VStr "more")
  | _ => false
  end.

Definition loaded_children (child : val) : list val :=
  match replies_of child with
  | Ret (VArr l) => l
  | _ => []
  end.

(** The nodes of a reply forest in pre-order, continuation markers and what
    hangs below them left out, down to [budget] levels. *)
Fixpoint preorder_rec (budget : nat) (children : list val) : list val :=
  match budget with
  | O => []
  | S budget' =>
      flat_map (fun child =>
                  if is_more child then []
                  else child :: preorder_rec budget' (loaded_children child))
               children
  end.

Definition preorder (children : list val) : list val :=
  preorder_rec (S (lheight children)) children.

(** *** Positions in a reply forest

    A position is the path of indices that leads to a node: the first
    index among the children given, each further one among the loaded
    children of the node before. *)

(** The node at a position; [None] when an index is out of range. *)
Fixpoint node_at (path : list nat) (children : list val) : option val :=
  match path with
  | [] => None
  | i :: path' =>
      match nth_error children i with
      | Some child =>
          match path' with
          | [] => Some child
          | _ => node_at path' (loaded_children child)
          end
      | None => None
      end
  end.

(** Whether a continuation marker stands on the way to a position, the
    node at the position included. *)
Fixpoint meets_marker (path : list nat) (children : list val) : bool :=
  match path with
  | [] => false
  | i :: path' =>
      match nth_error children i with
      | Some child => is_more child || meets_marker path' (loaded_children child)
      | None => false
      end
  end.

(** The elements of a list with their indices, counted from [start]. *)
Definition indexed_from {A : Type} (start : nat) (l : list A) : list (nat * A) :=
  combine (seq start (List.length l)) l.

(** The positions with no continuation marker on the way, in pre-order,
    down to [budget] levels. *)
Fixpoint clear_paths (budget : nat) (children : list val) : list (list nat) :=
  match budget with
  | O => []
  | S budget' =>
      flat_map (fun ic : nat * val =>
                  if is_more (snd ic) then []
                  else [fst ic]
                       :: map (cons (fst ic))
                            (clear_paths budget' (loaded_children (snd ic))))
               (indexed_from 0 children)
  end.

(** *** Patterns that cannot match the empty string *)

Fixpoint nullable (r : regex) : bool :=
  match r with
  | Empty => true
  | Class _ => false
  | Seq r1 r2 => nullable r1 && nullable r2
  | Star _ _ => true
  | Group _ r1 => nullable r1
  | EndOfInput => true
  end.


(** *** Predicates of the proofs *)

(** A matcher that, when it succeeds, has called its continuation on a
    suffix of its input, a proper one when [strict]. *)
Definition consumes (m : string -> captures -> continuation -> option (captures * string))
    (strict : bool) : Prop :=
  forall s c k res,
    m s c k = Some res ->
    exists s' c', k s' c' = Some res /\
                  String.length s' <= String.length s /\
                  (strict = true -> String.length s' < String.length s).

(** An outcome that is a result or a [TypeError]: the call neither exhausts
    a budget nor throws an error of the source's own. *)
Definition settled {A : Type} (o : outcome A) : Prop :=
  match o with
  | Ret _ => True
  | Throws TypeError => True
  | Throws (Error _) => False
  | Diverges => False
  end.

(* ================================================================== *)
(** ** The listing page (lines 78-122 and 209-228) *)

(** Character classes of the page's patterns: [[|-]], [[A-Z]], and [.]
    without the [s] flag (any character but a line terminator). *)
Definition one_of (s : string) : ascii -> bool :=
  fun a => existsb (Ascii.eqb a) (list_ascii_of_string s).
Definition is_upper (a : ascii) : bool :=
  let n := nat_of_ascii a in ((65 <=? n) && (n <=? 90))%nat.
Definition not_line_terminator (a : ascii) : bool :=
  let n := nat_of_ascii a in negb ((n =? 10) || (n =? 13))%nat.

(** [r{n}] *)
Fixpoint Times (n : nat) (r : regex) : regex :=
  match n with
  | O => Empty
  | S n' => Seq r (Times n' r)
  end.

(** [/<title>([^<]+)<\/title>/] (line 83) *)
Definition titleRegex : regex :=
  Concat [ Lit "<title>"; Group 1 (Plus (Class (none_of "<"))); Lit "</title>" ].

(** [/\s*[|-]\s*Facebook.*$/] (line 104) *)
Definition brandSuffixRegex : regex :=
  Concat [ white_space; Class (one_of "|-"); white_space; Lit "Facebook";
           Star true (Class not_line_terminator); EndOfInput ].

(** [/'amount':'([\d.]+)'/] (line 84), with ['] for the double quote *)
Definition amountRegex : regex :=
  Concat [ Lit (quoted "amount" ++ ":" ++ Q); Group 1 (Plus (Class digit_or_dot)); Chr DQUOTE ].

(** [/'currency':'([A-Z]+)'/] (line 85), with ['] for the double quote *)
Definition currencyRegex : regex :=
  Concat [ Lit (quoted "currency" ++ ":" ++ Q); Group 1 (Plus (Class is_upper)); Chr DQUOTE ].

(** [/'redacted_description':\{'text':'([^']+)'/] (line 86), with ['] for
    the double quote *)
Definition descriptionRegex : regex :=
  Concat [ Lit (quoted "redacted_description" ++ ":{" ++ quoted "text" ++ ":" ++ Q);
           Group 1 (Plus (Class (none_of Q))); Chr DQUOTE ].

(** [/'marketplace_listing_location':\{'reverse_geocode':\{'city':'([^']+)'/]
    (line 87), with ['] for the double quote *)
Definition locationRegex : regex :=
  Concat [ Lit (quoted "marketplace_listing_location" ++ ":{" ++ quoted "reverse_geocode"
                ++ ":{" ++ quoted "city" ++ ":" ++ Q);
           Group 1 (Plus (Class (none_of Q))); Chr DQUOTE ].

(** [/'condition_text':'([^']+)'/] (line 88), with ['] for the double quote *)
Definition conditionRegex : regex :=
  Concat [ Lit (quoted "condition_text" ++ ":" ++ Q);
           Group 1 (Plus (Class (none_of Q))); Chr DQUOTE ].

(** [/'marketplace_listing_seller':\{'name':'([^']+)'/] (line 89), with [']
    for the double quote *)
Definition sellerRegex : regex :=
  Concat [ Lit (quoted "marketplace_listing_seller" ++ ":{" ++ quoted "name" ++ ":" ++ Q);
           Group 1 (Plus (Class (none_of Q))); Chr DQUOTE ].

(** [/item\/(\d+)/] and [/(\d{10,})/] (line 90) *)
Definition itemIdRegex : regex :=
  Concat [ Lit "item/"; Group 1 (Plus (Class is_digit)) ].
Definition longDigitsRegex : regex :=
  Concat [ Group 1 (Concat [Times 10 (Class is_digit); Star true (Class is_digit)]) ].

(** [/'creation_time':(\d+)/] (line 100), with ['] for the double quote *)
Definition creationTimeRegex : regex :=
  Concat [ Lit (quoted "creation_time" ++ ":"); Group 1 (Plus (Class is_digit)) ].

(** [hay.includes(needle)] *)
Fixpoint includes (hay needle : string) : bool :=
  starts_with needle hay ||
  match hay with
  | EmptyString => false
  | String _ hay' => includes hay' needle
  end.

(** The value of a digit in the radix 10 or 16. *)
Definition digit_value (radix : Z) (a : ascii) : option Z :=
  let n := Z.of_nat (nat_of_ascii a) in
  if ((48 <=? n) && (n <=? 57))%Z then Some (n - 48)%Z
  else if (radix =? 16)%Z && (97 <=? n)%Z && (n <=? 102)%Z then Some (n - 87)%Z
  else if (radix =? 16)%Z && (65 <=? n)%Z && (n <=? 70)%Z then Some (n - 55)%Z
  else None.

(** The number that the longest prefix of digits denotes; [acc] is the
    value read so far, [None] when no digit was read. *)
Fixpoint parse_digits (radix : Z) (acc : option Z) (s : string) : option Z :=
  match s with
  | EmptyString => acc
  | String a s' =>
      match digit_value radix a with
      | Some d =>
          parse_digits radix
            (Some (radix * match acc with Some n => n | None => 0 end + d)%Z) s'
      | None => acc
      end
  end.

(** [parseInt(s)] without a radix: leading white space is skipped, a sign and
    a prefix [0x] are read, then the longest prefix of digits; [None] is
    NaN. *)
Definition parseInt (s : string) : option Z :=
  let s := trim_start s in
  let negative := starts_with "-" s in
  let s := if starts_with "-" s || starts_with "+" s then drop 1 s else s in
  let hex := starts_with "0x" s || starts_with "0X" s in
  let magnitude := if hex then parse_digits 16 None (drop 2 s)
                   else parse_digits 10 None s in
  match magnitude with
  | Some n => Some (if negative then (- n)%Z else n)
  | None => None
  end.

(** The largest time value of a [Date], in milliseconds. *)
Definition MAX_TIME_VALUE : Z := 8640000000000000.

(** The time value of [new Date(ms)]: [None], an invalid date, when [ms] is
    NaN or beyond the range of dates. *)
Definition time_value (ms : option Z) : option Z :=
  match ms with
  | Some t => if (Z.abs t <=? MAX_TIME_VALUE)%Z then Some t else None
  | None => None
  end.

(** How a call on the listing page fails: the error of line 223, the
    RangeError that [toISOString] throws for an invalid date, or a loop that
    does not end within its budget. *)
Inductive listing_failure : Type :=
| FetchFailed (message : string)
| RangeError
| BudgetExhausted.

(** [m ? m[1] : fallback] *)
Definition group_or (m : option MatchResult) (fallback : string) : string :=
  match m with
  | Some m => group 1 m
  | None => fallback
  end.

Section ListingPage.
Variable rt : Runtime.
(** [new Date(ms).toISOString()] for a valid time value [ms]. *)
Variable toISOString : Z -> string.

(** Lines 81-122. *)
Definition parseListingFromHtml (html url : string)
  : listing_failure + MarketplaceListing :=
  let titleMatch := string_match titleRegex html in
  let priceMatch := string_match amountRegex html in
  let currMatch := string_match currencyRegex html in
  let descMatch := string_match descriptionRegex html in
  let locationMatch := string_match locationRegex html in
  let conditionMatch := string_match conditionRegex html in
  let sellerMatch := string_match sellerRegex html in
  let idMatch := match string_match itemIdRegex url with
                 | Some m => Some m
                 | None => string_match longDigitsRegex url
                 end in
  match parseListingFromHtml_images html with
  | Ret images =>
      let postTimeMatch := string_match creationTimeRegex html in
      let posted_at :=
        match postTimeMatch with
        | Some m =>
            match time_value (option_map (Z.mul 1000) (parseInt (group 1 m))) with
            | Some t => inr (toISOString t)
            | None => inl RangeError
            end
        | None => inr ""
        end in
      match posted_at with
      | inr posted_at =>
          inr {| listing_id := VStr (group_or idMatch "");
                 listing_title :=
                   VStr (match titleMatch with
                         | Some m => trim (replace_first brandSuffixRegex (group 1 m) "")
                         | None => ""
                         end);
                 price := match priceMatch with
                          | Some m => parseFloat rt (group 1 m)
                          | None => VNum 0
                          end;
                 currency := VStr (group_or currMatch "USD");
                 location := group_or locationMatch "";
                 seller := {| seller_name := group_or sellerMatch "";
                              joined := None; rating := None; profile_url := None |};
                 condition := option_map (group 1) conditionMatch;
                 posted_at := posted_at;
                 images := images;
                 listing_url := url;
                 description := group_or descMatch "";
                 category := None;
                 is_available :=
                   negb (includes html "This listing is no longer available") |}
      | inl e => inl e
      end
  | _ => inl BudgetExhausted
  end.

(** Lines 212-228, from the response on. *)
Definition getListingDetails (listingId : string) (response : Response)
  : listing_failure + MarketplaceListing :=
  let url := "https://www.facebook.com/marketplace/item/" ++ listingId in
  if negb (ok response)
  then inl (FetchFailed ("FB Marketplace listing fetch failed for " ++ listingId ++ ": "
                         ++ Z_to_string (status response)))
  else parseListingFromHtml (text response) url.

End ListingPage.


(* ================================================================== *)
(** ** Ranked feeds (lines 492-551) *)

Record TrendingTopic : Type := {
  trend_title : val;
  trend_subreddit : val;
  rank : Z;
  trend_score : val;
  trend_num_comments : val;
  trend_url : val;
  trend_created_utc : val
}.

(** [l.map((x, i) => f(x, i))], from the index [i] on. *)
Fixpoint array_map_indexed {A B : Type} (f : A -> nat -> outcome B) (i : nat) (l : list A)
  : outcome (list B) :=
  match l with
  | [] => Ret []
  | x :: l' => y <- f x i ;; ys <- array_map_indexed f (S i) l' ;; Ret (y :: ys)
  end.

(** The callback of lines 515-526. *)
Definition trendingTopic (child : val) (i : nat) : outcome TrendingTopic :=
  d <- get child "data" ||| Ret (VObj []) ;;
  title <- get d "title" ||| Ret (VStr "") ;;
  subreddit <- get d "subreddit_name_prefixed" |||
               (s <- get d "subreddit" ||| Ret (VStr "") ;;
                Ret (VStr ("r/" ++ ToString s))) ;;
  score <- get d "score" ??? Ret (VNum 0) ;;
  num_comments <- get d "num_comments" ??? Ret (VNum 0) ;;
  url <- (p <- get d "permalink" ;;
          Ret (if truthy p then VStr ("https://reddit.com" ++ ToString p)
               else VStr "")) ;;
  created_utc <- get d "created_utc" ??? Ret (VNum 0) ;;
  Ret {| trend_title := title;
         trend_subreddit := subreddit;
         rank := Z.of_nat i + 1;
         trend_score := score;
         trend_num_comments := num_comments;
         trend_url := url;
         trend_created_utc := created_utc |}.

(** Lines 495-527, from the response on. *)
Definition getTrending (response : Response) : outcome (list TrendingTopic) :=
  if negb (ok response)
  then Throws (Error ("Reddit trending failed: " ++ Z_to_string (status response)))
  else
    json <- json response ;;
    children <- (d <- optget json "data" ;; optget d "children") ||| Ret (VArr []) ;;
    match children with
    | VArr l => array_map_indexed trendingTopic 0 l
    | _ => Throws TypeError
    end.

Section SubredditTop.
Variable rt : Runtime.

(** Lines 532-551, from the response on. *)
Definition getSubredditTop (subreddit : string) (response : Response)
  : outcome (list RedditPost) :=
  if negb (ok response)
  then Throws (Error ("Subreddit top failed for r/" ++ subreddit ++ ": "
                      ++ Z_to_string (status response)))
  else
    json <- json response ;;
    children <- (d <- optget json "data" ;; optget d "children") ||| Ret (VArr []) ;;
    match children with
    | VArr l => array_map (parsePost rt) l
    | _ => Throws TypeError
    end.

End SubredditTop.

(** *** More predicates of the proofs *)

(** The length of the longest prefix of [s] whose characters satisfy [p]. *)
Fixpoint span (p : ascii -> bool) (s : string) : nat :=
  match s with
  | String a s' => if p a then S (span p s') else 0
  | EmptyString => 0
  end.

(** Every character of [s] satisfies [p]. *)
Fixpoint all_chars (p : ascii -> bool) (s : string) : bool :=
  match s with
  | String a s' => p a && all_chars p s'
  | EmptyString => true
  end.


(** The fields a search leaves at their defaults, and the address it derives
    from the id. *)
Definition partial_listing (place : string) (l : MarketplaceListing) : Prop :=
  listing_url l = "https://www.facebook.com/marketplace/item/" ++ ToString (listing_id l) /\
  location l = place /\
  seller l = no_seller /\ condition l = None /\ posted_at l = "" /\
  images l = [] /\ description l = "" /\ category l = None /\ is_available l = true.

(** The object pushed for a match of the listing pattern (lines 66-71). *)
Definition extracted_item (rt : Runtime) (m : MatchResult) : val :=
  VObj [("id", VStr (group 1 m));
        ("title", VStr (group 2 m));
        ("price", parseFloat rt (group 3 m));
        ("currency", VStr (group 4 m))].

(** A value that a template literal prints without running code of the
    value: neither an object nor an array. *)
Definition is_primitive (v : val) : bool :=
  match v with
  | VArr _ | VObj _ => false
  | _ => true
  end.

(** The fields of a payload that lines 413 and 418 (and 519, 523) print
    hold primitives. *)
Definition prints_primitives (d : val) : Prop :=
  forall k v,
    k = "subreddit" \/ k = "permalink" ->
    get d k = Ret v -> is_primitive v = true.
(* ================================================================== *)
(** ** Fixtures *)

(** The number a text of decimal digits denotes. *)
Fixpoint digits_value (acc : Z) (s : string) : option Z :=
  match s with
  | EmptyString => Some acc
  | String a s' =>
      if is_digit a
      then digits_value (10 * acc + Z.of_nat (nat_of_ascii a - 48)) s'
      else None
  end.

Definition all_digits (s : string) : option Z :=
  match s with
  | EmptyString => None
  | _ => digits_value 0 s
  end.

(** A runtime for concrete runs.  It agrees with the built-ins on the texts
    the fixtures give it: [parseFloat] and the comparison are those of a
    text of decimal digits, [encodeURIComponent] is that of a text of
    letters and digits, and [JSON.parse] is not reached. *)
Definition sample_runtime : Runtime :=
  {| JSON_parse := fun _ => None;
     parseFloat := fun s => match all_digits s with Some n => VNum n | None => VUndef end;
     string_le_number := fun s m =>
       match all_digits s with Some n => (n <=? m)%Z | None => false end;
     encodeURIComponent := fun s => s |}.

(** A successful response with body [body]. *)
Definition html_response (body : string) : Response :=
  {| ok := true; status := 200; statusText := "OK"; text := body;
     json := Throws (Error "Unexpected token") |}.

(** [{"listing_id":"<id>","listing_title":"<title>","listing_price":{"amount":"<amount>","currency":"<currency>"}}] *)
Definition listing_tuple (id title amount currency : string) : string :=
  "{" ++ quoted "listing_id" ++ ":" ++ quoted id ++ ","
      ++ quoted "listing_title" ++ ":" ++ quoted title ++ ","
      ++ quoted "listing_price" ++ ":{" ++ quoted "amount" ++ ":" ++ quoted amount ++ ","
      ++ quoted "currency" ++ ":" ++ quoted currency ++ "}}".

(** A page that carries the listing 1 twice. *)
Definition repeated_listing_page : string :=
  listing_tuple "1" "lamp" "5" "USD" ++ listing_tuple "1" "lamp" "5" "USD".

(** A page that carries three listings. *)
Definition three_listings_page : string :=
  listing_tuple "1" "lamp" "5" "USD" ++ listing_tuple "2" "desk" "40" "USD"
    ++ listing_tuple "3" "bike" "120" "USD".

(** A page with the item links 111, 222, 111 and 333 and no structured state. *)
Definition item_links_page : string :=
  "<a href=" ++ quoted "/marketplace/item/111/" ++ "></a>"
  ++ "<a href=" ++ quoted "/marketplace/item/222/" ++ "></a>"
  ++ "<a href=" ++ quoted "/marketplace/item/111/" ++ "></a>"
  ++ "<a href=" ++ quoted "/marketplace/item/333/" ++ "></a>".

(** ["image":{"uri":"https:\/\/cdn.example\/marketplace\/a.jpg"}] *)
Definition escaped_image_page : string :=
  quoted "image" ++ ":{" ++ quoted "uri" ++ ":"
    ++ quoted "https:\/\/cdn.example\/marketplace\/a.jpg" ++ "}".

(** Eight distinct item links and no structured state. *)
Definition eight_links_page : string :=
  String.concat " "
    (map (fun id => "<a href=" ++ quoted ("/marketplace/item/" ++ id ++ "/") ++ "></a>")
         ["101"; "102"; "103"; "104"; "105"; "106"; "107"; "108"]).

(** A payload that has a [data] field of its own:
    [{title: "outer", data: {title: "inner"}}]. *)
Definition payload_with_data_field : val :=
  VObj [("title", VStr "outer"); ("data", VObj [("title", VStr "inner")])].

(** A response whose parsed body is [body]. *)
Definition json_response (body : val) : Response :=
  {| ok := true; status := 200; statusText := "OK"; text := ""; json := Ret body |}.

(** A post node [{kind: "t3", data: {id, title, author, num_comments}}]. *)
Definition post_node (id title author : string) (n : Z) : val :=
  VObj [("kind", VStr "t3");
        ("data", VObj [("id", VStr id); ("title", VStr title);
                       ("author", VStr author); ("num_comments", VNum n)])].

(** [{kind: "Listing", data: {children}}] *)
Definition listing_of (children : list val) : val :=
  VObj [("kind", VStr "Listing"); ("data", VObj [("children", VArr children)])].

(** A search response with three posts. *)
Definition three_posts : val :=
  listing_of [post_node "p1" "first" "alice" 4; post_node "p2" "second" "bob" 0;
              post_node "p3" "third" "carol" 9].

(** A comment node [{kind: "t1", data: {id, author, body, depth, replies}}]. *)
Definition comment_node (id author : string) (depth : Z) (replies : val) : val :=
  VObj [("kind", VStr "t1");
        ("data", VObj [("id", VStr id); ("author", VStr author); ("body", VStr "text");
                       ("depth", VNum depth); ("replies", replies)])].

(** A continuation marker with [hidden] below it. *)
Definition more_node (hidden : list val) : val :=
  VObj [("kind", VStr "more");
        ("data", VObj [("count", VNum 2);
                       ("replies", listing_of hidden)])].

(** A thread of [n + 1] comments, each the only reply to the one before,
    with the depths [d], [d + 1], ... *)
Fixpoint chain_from (d : Z) (n : nat) : list val :=
  match n with
  | O => [comment_node "c" "bob" d (VStr "")]
  | S n' => [comment_node "c" "bob" d (listing_of (chain_from (d + 1) n'))]
  end.

Definition chain (n : nat) : list val := chain_from 0 n.

(** A comment with three children: a reply, a continuation marker with two
    hidden comments below it, and another reply. *)
Definition nested_marker_forest : list val :=
  [comment_node "c1" "alice" 0
     (listing_of [comment_node "c2" "bob" 1 (VStr "");
                  more_node (chain 1);
                  comment_node "c3" "eve" 1 (VStr "")])].

(** A thread response with three top-level elements. *)
Definition three_element_body : val :=
  VArr [listing_of [post_node "p1" "first" "alice" 7]; listing_of []; VNull].

(** A thread response: a post that announces 7 comments, and no comment. *)
Definition two_element_body : val :=
  VArr [listing_of [post_node "p1" "first" "alice" 7]; listing_of []].

(** A transport that answers every request with the three posts. *)
Definition three_posts_transport : Transport := fun _ => Ret (json_response three_posts).


(** A formatter that stands for [toISOString] in concrete runs: it writes
    the time value in decimal. *)
Definition sample_toISOString (ms : Z) : string := "ms:" ++ Z_to_string ms.

(** Two category links with the same slug, and a third one. *)
Definition categories_page : string :=
  "<a href=" ++ quoted "/marketplace/category/vehicles/" ++ ">Vehicles</a>"
  ++ "<a href=" ++ quoted "/marketplace/category/vehicles" ++ "> Vehicles </a>"
  ++ "<a href=" ++ quoted "/marketplace/category/garden" ++ "><span>Garden</span></a>".

(** A listing page with a title, a price and a creation time. *)
Definition listing_page : string :=
  "<html><title>Red lamp | Facebook Marketplace</title>"
  ++ quoted "amount" ++ ":" ++ quoted "12" ++ "," ++ quoted "currency" ++ ":" ++ quoted "EUR"
  ++ "," ++ quoted "creation_time" ++ ":1700000000}".


(** A post node whose [selftext] is the number 7, not a text. *)
Definition numeric_text_post : val :=
  VObj [("kind", VStr "t3");
        ("data", VObj [("id", VStr "p9"); ("title", VStr "odd"); ("selftext", VNum 7)])].

(** A thread response whose first listing holds no post. *)
Definition postless_body : val := VArr [listing_of []; listing_of []].

(** A comment of alice with two loaded replies and a continuation marker
    below it. *)
Definition comment_with_marker : val :=
  comment_node "c1" "alice" 0
    (listing_of [comment_node "c2" "bob" 1 (VStr ""); comment_node "c3" "eve" 1 (VStr "");
                 more_node []]).

(** A text post of alice. *)
Definition text_post : val :=
  VObj [("kind", VStr "t3");
        ("data", VObj [("id", VStr "p7"); ("title", VStr "lamp"); ("author", VStr "alice");
                       ("permalink", VStr "/r/lamps/comments/p7/lamp/");
                       ("selftext", VStr "hello")])].
(* ================================================================== *)
(** * Properties *)

(** ** The matcher consumes input *)

Lemma repeat_match_consumes m greedy n :
  consumes m false -> consumes (repeat_match m greedy n) false.
Proof.
  intros Hm. induction n as [|n IH]; intros s c k res H.
  - simpl in H. destruct greedy.
    + exists s, c. repeat split; auto; discriminate.
    + destruct (k s c) eqn:E; [|discriminate].
      exists s, c. injection H as <-. repeat split; auto; discriminate.
  - simpl in H.
    assert (Hagain : forall res0,
      m s c (fun s' c' => if (String.length s' <? String.length s)%nat
                          then repeat_match m greedy n s' c' k else None) = Some res0 ->
      exists s' c', k s' c' = Some res0 /\ String.length s' <= String.length s /\
                    (false = true -> String.length s' < String.length s)).
    { intros res0 H0. apply Hm in H0. destruct H0 as (s1 & c1 & H1 & Hle & _).
      destruct (String.length s1 <? String.length s)%nat eqn:Hlt; [|discriminate].
      apply IH in H1. destruct H1 as (s2 & c2 & H2 & Hle2 & _).
      exists s2, c2. repeat split; auto; try discriminate. lia. }
    destruct greedy.
    + match type of H with
      | match ?a with _ => _ end = _ => destruct a eqn:E
      end.
      * injection H as <-. apply Hagain. reflexivity.
      * exists s, c. repeat split; auto; discriminate.
    + destruct (k s c) eqn:E.
      * injection H as <-. exists s, c. repeat split; auto; discriminate.
      * apply Hagain. exact H.
Qed.

Lemma consumes_weaken m b : consumes m b -> consumes m false.
Proof.
  intros H s c k res E. destruct (H s c k res E) as (s' & c' & ? & ? & _).
  exists s', c'. repeat split; auto; discriminate.
Qed.

Lemma rmatch_consumes r : consumes (rmatch r) (negb (nullable r)).
Proof.
  induction r as [|p|r1 IH1 r2 IH2|g r IH|n r IH|]; intros s c k res H; simpl in *.
  - exists s, c. repeat split; auto; discriminate.
  - destruct s as [|a s']; [discriminate|].
    destruct (p a); [|discriminate].
    exists s', c. simpl. repeat split; auto.
  - apply IH1 in H. destruct H as (s1 & c1 & H & Hle1 & Hlt1).
    apply IH2 in H. destruct H as (s2 & c2 & H & Hle2 & Hlt2).
    exists s2, c2. repeat split; auto; [lia|].
    intros Hn. rewrite negb_true_iff, andb_false_iff in Hn.
    destruct Hn as [Hn|Hn]; rewrite Hn in *; simpl in *.
    + specialize (Hlt1 eq_refl). lia.
    + specialize (Hlt2 eq_refl). lia.
  - eapply repeat_match_consumes in H; [|exact (consumes_weaken IH)].
    destruct H as (s' & c' & H & Hle & _).
    exists s', c'. repeat split; auto; discriminate.
  - apply IH in H. destruct H as (s' & c' & H & Hle & Hlt). eauto 6.
  - destruct s; [|discriminate]. exists "", c. repeat split; auto; discriminate.
Qed.

Lemma drop_length n s : n <= String.length s -> String.length (drop n s) = String.length s - n.
Proof.
  revert s. induction n as [|n IH]; intros s Hn; simpl.
  - lia.
  - destruct s as [|a s']; simpl in *; [lia|]. apply IH. lia.
Qed.

Lemma search_unfold r s i :
  search r s i =
  match rmatch r s [] (fun s' c' => Some (c', s')) with
  | Some (c', s') =>
      Some {| matchIndex := i;
              endIndex := i + (String.length s - String.length s');
              groups := c' |}
  | None =>
      match s with
      | EmptyString => None
      | String _ s1 => search r s1 (S i)
      end
  end.
Proof. destruct s; reflexivity. Qed.

Lemma search_bounds r s i m :
  nullable r = false -> search r s i = Some m ->
  i < endIndex m <= i + String.length s.
Proof.
  intros Hn. revert i.
  induction s as [|a s IH]; intros i H; rewrite search_unfold in H;
    destruct (rmatch r _ [] _) as [[c' s']|] eqn:E; try discriminate.
  - apply rmatch_consumes in E. destruct E as (s1 & c1 & E & Hle & Hlt).
    rewrite Hn in Hlt. specialize (Hlt eq_refl). cbn [String.length] in Hlt. lia.
  - injection H as <-. cbn [endIndex].
    apply rmatch_consumes in E. destruct E as (s1 & c1 & E & Hle & Hlt).
    injection E as -> ->. rewrite Hn in Hlt. specialize (Hlt eq_refl).
    cbn [String.length] in *. destruct (String.length s'); lia.
  - apply IH in H. cbn [String.length]. lia.
Qed.

Lemma exec_bounds r input lastIndex m :
  nullable r = false -> exec r input lastIndex = Some m ->
  lastIndex < endIndex m <= String.length input.
Proof.
  intros Hn H. unfold exec in H.
  destruct (lastIndex <=? String.length input)%nat eqn:Hle; [|discriminate].
  apply Nat.leb_le in Hle.
  apply search_bounds in H; auto. rewrite drop_length in H by auto. lia.
Qed.

(** ** Loops over the matches of a global pattern *)

Lemma regex_while_terminates {S : Type} r input guard body :
  nullable r = false ->
  forall fuel lastIndex (st : S),
    String.length input < lastIndex + Datatypes.S fuel ->
    exists st', regex_while (Datatypes.S fuel) r input lastIndex guard body st = Some st'.
Proof.
  intros Hn. induction fuel as [|fuel IH]; intros lastIndex st Hfuel.
  - simpl. destruct (exec r input lastIndex) as [m|] eqn:E; [|eauto].
    apply exec_bounds in E; auto. lia.
  - cbn [regex_while]. destruct (exec r input lastIndex) as [m|] eqn:E; [|eauto].
    destruct (guard st); [|eauto].
    apply exec_bounds in E; auto. apply IH. lia.
Qed.

Lemma regex_while_invariant {S : Type} (P : S -> Prop) r input guard body :
  (forall m st, P st -> guard st = true -> P (body m st)) ->
  forall fuel lastIndex st st',
    P st -> regex_while fuel r input lastIndex guard body st = Some st' -> P st'.
Proof.
  intros Hbody. induction fuel as [|fuel IH]; intros lastIndex st st' Hst H; simpl in H.
  - discriminate.
  - destruct (exec r input lastIndex) as [m|].
    + destruct (guard st) eqn:G.
      * eapply IH; [|exact H]. auto.
      * injection H as <-. exact Hst.
    + injection H as <-. exact Hst.
Qed.

(** ** Outcomes, slices and loops *)

Lemma bind_ret_inv {A B : Type} (m : outcome A) (f : A -> outcome B) b :
  bind m f = Ret b -> exists a, m = Ret a /\ f a = Ret b.
Proof. destruct m; simpl; intros H; try discriminate. eauto. Qed.

Lemma of_option_ret_inv {A : Type} (o : option A) a : of_option o = Ret a -> o = Some a.
Proof. destruct o; simpl; intros H; congruence. Qed.

(** Splits a hypothesis [x <- m ;; k = Ret b] into [m = Ret a] and [k = Ret b]. *)
Ltac bind_inv H :=
  let a := fresh "a" in
  let E := fresh "E" in
  apply bind_ret_inv in H; destruct H as (a & E & H).

Lemma take_length n s : String.length (take n s) = Nat.min n (String.length s).
Proof.
  revert s. induction n as [|n IH]; intros [|a s]; simpl; auto.
Qed.

Lemma chars_length s : List.length (chars s) = String.length s.
Proof. induction s; simpl; auto. Qed.

Lemma slice_bound_nonneg len i : (0 <= i)%Z -> slice_bound len i = Z.min i len.
Proof.
  intros H. unfold slice_bound.
  destruct (i <? 0)%Z eqn:E; [apply Z.ltb_lt in E; lia|reflexivity].
Qed.

Lemma array_slice_length_le {A : Type} (l : list A) (to : Z) :
  (0 <= to)%Z -> (Z.of_nat (List.length (array_slice l 0 to)) <= to)%Z.
Proof.
  intros Hto. unfold array_slice.
  rewrite !slice_bound_nonneg by lia. rewrite length_firstn. lia.
Qed.

Lemma array_slice_all {A : Type} (l : list A) (to : Z) :
  (Z.of_nat (List.length l) <= to)%Z -> array_slice l 0 to = l.
Proof.
  intros Hto. unfold array_slice.
  rewrite !slice_bound_nonneg by lia.
  replace (Z.to_nat (Z.min 0 (Z.of_nat (List.length l)))) with 0 by lia.
  simpl skipn. apply firstn_all2. lia.
Qed.

Lemma string_slice_length_le (s : string) (to : Z) :
  (0 <= to)%Z -> (Z.of_nat (String.length (string_slice s 0 to)) <= to)%Z.
Proof.
  intros Hto. unfold string_slice.
  rewrite !slice_bound_nonneg by lia. rewrite take_length. lia.
Qed.

Lemma for_of_length {A B : Type} (body : A -> list B -> outcome (list B)) :
  (forall x acc acc', body x acc = Ret acc' -> List.length acc' = S (List.length acc)) ->
  forall l acc res,
    for_of l acc body = Ret res -> List.length res = List.length acc + List.length l.
Proof.
  intros Hbody. induction l as [|x l IH]; intros acc res H; simpl in H.
  - injection H as <-. simpl. lia.
  - bind_inv H. apply IH in H. apply Hbody in E. simpl. lia.
Qed.

Lemma for_of_terminates {A S : Type} (body : A -> S -> outcome S) :
  (forall x st, body x st <> Diverges) ->
  forall l st, for_of l st body <> Diverges.
Proof.
  intros Hbody. induction l as [|x l IH]; intros st; simpl; [discriminate|].
  destruct (body x st) eqn:E; simpl; [apply IH|discriminate|].
  exfalso. eapply Hbody. exact E.
Qed.

(** ** Search and new listings: the size of the result *)

Section MarketplaceProperties.
Variable rt : Runtime.

Lemma sliced_items_length extracted limit sliced items :
  (0 <= limit)%Z ->
  call_slice extracted limit = Ret sliced -> iterate sliced = Ret items ->
  (Z.of_nat (List.length items) <= limit)%Z.
Proof.
  intros Hl Hs Hi.
  destruct extracted; simpl in Hs; try discriminate; injection Hs as <-;
    simpl in Hi; injection Hi as <-.
  - rewrite length_map, chars_length. apply string_slice_length_le; auto.
  - apply array_slice_length_le; auto.
Qed.

Lemma collect_listings_length html location limit results :
  (0 <= limit)%Z ->
  collect_listings rt html location limit = Ret results ->
  (Z.of_nat (List.length results) <= limit)%Z.
Proof.
  intros Hl H. unfold collect_listings in H.
  bind_inv H. bind_inv H. destruct (truthy a0).
  - bind_inv H. bind_inv H.
    pose proof (sliced_items_length _ Hl E1 E2) as Hitems.
    apply for_of_length in H.
    + simpl in H. lia.
    + intros x acc acc' Hb. do 4 bind_inv Hb. injection Hb as <-.
      rewrite length_app. simpl. lia.
  - bind_inv H. injection H as <-. apply of_option_ret_inv in E1.
    revert E1. apply regex_while_invariant with
      (P := fun st : list string * list MarketplaceListing =>
              (Z.of_nat (List.length (snd st)) <= limit)%Z).
    + intros m st Hst Hg. apply Z.ltb_lt in Hg.
      destruct (set_has (fst st) (group 1 m)); auto.
      simpl. rewrite length_app. simpl. lia.
    + simpl. lia.
Qed.

Lemma collect_listings_terminates html location limit :
  collect_listings rt html location limit <> Diverges.
Proof.
  unfold collect_listings, extractFbData.
  assert (Hloop : forall (S : Type) r guard body (st : S),
             nullable r = false ->
             exists st', regex_while (Datatypes.S (String.length html)) r html 0 guard body st
                         = Some st').
  { intros. apply regex_while_terminates; [assumption|lia]. }
  assert (Hrest : forall fbData,
    (extracted <- optget fbData "extracted_listings" ;;
     if truthy extracted then
       sliced <- call_slice extracted limit ;;
       items <- iterate sliced ;;
       for_of items []
         (fun item results =>
            id <- get item "id" ;;
            title <- get item "title" ;;
            price <- get item "price" ;;
            currency <- get item "currency" ;;
            Ret (results ++ [listing_of_item id title price currency location])%list)
     else
       st <- of_option
         (regex_while (S (String.length html)) cardRegex html 0
            (fun st : list string * list MarketplaceListing =>
               (Z.of_nat (List.length (snd st)) <? limit)%Z)
            (fun cardMatch st =>
               let listingId := group 1 cardMatch in
               if set_has (fst st) listingId then st
               else ((fst st ++ [listingId])%list,
                     (snd st ++ [listing_of_card listingId location])%list))
            ([], [])) ;;
       Ret (snd st)) <> Diverges).
  { intros fbData.
    destruct (optget fbData "extracted_listings") as [extracted| |] eqn:E1; cbn [bind];
      [|discriminate|destruct fbData; discriminate].
    destruct (truthy extracted).
    - destruct (call_slice extracted limit) as [sliced| |] eqn:E2; cbn [bind];
        [|discriminate|destruct extracted; discriminate].
      destruct (iterate sliced) as [items| |] eqn:E3; cbn [bind];
        [|discriminate|destruct sliced; discriminate].
      apply for_of_terminates. intros item acc. destruct item; simpl; discriminate.
    - edestruct (Hloop (list string * list MarketplaceListing)%type cardRegex) as (st' & ->);
        [reflexivity|]. simpl. discriminate. }
  destruct (try_parse rt (string_match relayRegex html)); [apply Hrest|].
  destruct (try_parse rt (string_match cometRegex html)); [apply Hrest|].
  edestruct (Hloop (list val) listingRegex) as (st' & ->); [reflexivity|].
  cbn [of_option bind]. apply Hrest.
Qed.

End MarketplaceProperties.

(** C3 (amended).  For a limit that is at least 0, a search that returns
    gives at most [limit] results and its [total_results] is their number; a
    new-listings call that returns gives at most [limit] results (its record
    has no [total_results]); and neither call exhausts its loops. *)
Theorem search_results_within_limit (rt : Runtime) (response : Response)
    (location : option string) (sinceTime : string) (limit : Z) :
  (0 <= limit)%Z ->
  (forall out, searchMarketplace rt response location limit = Ret out ->
     (Z.of_nat (List.length (results out)) <= limit)%Z /\
     total_results out = List.length (results out)) /\
  (forall out, getNewListings rt response sinceTime limit = Ret out ->
     (Z.of_nat (List.length (new_results out)) <= limit)%Z) /\
  searchMarketplace rt response location limit <> Diverges /\
  getNewListings rt response sinceTime limit <> Diverges.
Proof.
  intros Hl. unfold searchMarketplace, getNewListings.
  destruct (ok response); cbn [negb].
  2: { repeat split; intros; discriminate. }
  repeat split.
  - bind_inv H. injection H as <-. cbn [results].
    apply collect_listings_length in E; auto.
    rewrite array_slice_all; auto.
  - bind_inv H. injection H as <-. cbn [results total_results].
    apply collect_listings_length in E; auto.
    rewrite array_slice_all; auto.
  - intros out H. bind_inv H. injection H as <-. cbn [new_results].
    apply collect_listings_length in E; auto.
    rewrite array_slice_all; auto.
  - pose proof (collect_listings_terminates rt (text response)
                  (location_or_empty location) limit) as Ht.
    destruct (collect_listings rt (text response) (location_or_empty location) limit);
      cbn [bind]; congruence.
  - pose proof (collect_listings_terminates rt (text response) "" limit) as Ht.
    destruct (collect_listings rt (text response) "" limit); cbn [bind]; congruence.
Qed.

(** The specification's example: eight distinct item links, no structured
    state and [limit = 5] give five results and [total_results = 5]. *)
Lemma search_results_within_limit_witness :
  exists out,
    searchMarketplace sample_runtime (html_response eight_links_page) None 5 = Ret out /\
    (Z.of_nat (List.length (results out)) <= 5)%Z /\
    total_results out = List.length (results out).
Proof.
  eexists. split; [vm_compute; reflexivity|].
  apply (proj1 (@search_results_within_limit sample_runtime
                  (html_response eight_links_page) None "" 5 ltac:(lia))).
  vm_compute. reflexivity.
Defined.

(** The ids and the total of that example. *)
Example search_eight_links_limit_five :
  exists out,
    searchMarketplace sample_runtime (html_response eight_links_page) None 5 = Ret out /\
    map listing_id (results out)
    = [VStr "101"; VStr "102"; VStr "103"; VStr "104"; VStr "105"] /\
    total_results out = 5.
Proof. eexists. split; [vm_compute; reflexivity|]. split; reflexivity. Qed.

(** A repeated item link is kept once. *)
Example search_repeated_item_link :
  exists out,
    searchMarketplace sample_runtime (html_response item_links_page) None 20 = Ret out /\
    map listing_id (results out) = [VStr "111"; VStr "222"; VStr "333"] /\
    total_results out = 3.
Proof. eexists. split; [vm_compute; reflexivity|]. split; reflexivity. Qed.

(** With three listings in the structured state and [limit = -1], every
    runtime gives one result and [total_results = 2]. *)
Lemma search_negative_limit_run (rt : Runtime) :
  exists out,
    searchMarketplace rt (html_response three_listings_page) None (-1) = Ret out /\
    map listing_id (results out) = [VStr "1"] /\ total_results out = 2.
Proof. eexists. split; [vm_compute; reflexivity|]. split; reflexivity. Qed.

(** C3, counterexample.  [searchMarketplace] on a page with three listings
    and [limit = -1] returns one result, which is more than [limit], and
    [total_results = 2], which is not the number of results. *)
Lemma search_negative_limit_counterexample :
  exists out,
    searchMarketplace sample_runtime (html_response three_listings_page) None (-1) = Ret out /\
    ~ (Z.of_nat (List.length (results out)) <= -1)%Z /\
    total_results out <> List.length (results out).
Proof.
  eexists. split; [vm_compute; reflexivity|].
  split; [vm_compute; intros H; apply H; reflexivity|vm_compute; discriminate].
Qed.

(** ** The deduplicating scans *)

Lemma set_has_false seen x : set_has seen x = false -> ~ In x seen.
Proof.
  unfold set_has. intros H Hin.
  assert (existsb (String.eqb x) seen = true); [|congruence].
  apply existsb_exists. exists x. split; [exact Hin|apply String.eqb_refl].
Qed.

Lemma NoDup_snoc {A : Type} (l : list A) x : NoDup l -> ~ In x l -> NoDup (l ++ [x]).
Proof.
  intros Hl Hx. induction Hl as [|y l Hy Hl IH]; simpl.
  - constructor; [intros []|constructor].
  - constructor.
    + rewrite in_app_iff. simpl. intros [H|[H|[]]]; [contradiction|].
      apply Hx. left. symmetry. exact H.
    + apply IH. intros H. apply Hx. right. exact H.
Qed.

Lemma NoDup_map_VStr (l : list string) : NoDup l -> NoDup (map VStr l).
Proof.
  intros Hl. induction Hl as [|x l Hx Hl IH]; simpl; constructor; auto.
  rewrite in_map_iff. intros (y & E & Hy). injection E as ->. contradiction.
Qed.

(** The scan of item links (lines 181-203, 321-335) gives each id once. *)
Lemma item_link_scan_ids_unique html location limit fuel lastIndex st :
  regex_while fuel cardRegex html lastIndex
    (fun st : list string * list MarketplaceListing =>
       (Z.of_nat (List.length (snd st)) <? limit)%Z)
    (fun cardMatch st =>
       let listingId := group 1 cardMatch in
       if set_has (fst st) listingId then st
       else ((fst st ++ [listingId])%list,
             (snd st ++ [listing_of_card listingId location])%list))
    ([], []) = Some st ->
  NoDup (map listing_id (snd st)).
Proof.
  intros H.
  assert (P : NoDup (fst st) /\ map listing_id (snd st) = map VStr (fst st)).
  { revert H. apply regex_while_invariant with
      (P := fun st : list string * list MarketplaceListing =>
              NoDup (fst st) /\ map listing_id (snd st) = map VStr (fst st)).
    - intros m [seen res] [Hnd Hids] _. cbn [fst snd] in *.
      destruct (set_has seen (group 1 m)) eqn:E; cbn [fst snd]; [auto|].
      split.
      + apply NoDup_snoc; [exact Hnd|apply set_has_false; exact E].
      + rewrite !map_app, Hids. reflexivity.
    - split; [constructor|reflexivity]. }
  destruct P as [Hnd ->]. apply NoDup_map_VStr. exact Hnd.
Qed.

Lemma in_firstn {A : Type} n (l : list A) x : In x (firstn n l) -> In x l.
Proof.
  revert n. induction l as [|y l IH]; intros [|n]; simpl; try contradiction.
  intros [H|H]; [left; exact H|right; eapply IH; exact H].
Qed.

Lemma NoDup_firstn {A : Type} n (l : list A) : NoDup l -> NoDup (firstn n l).
Proof.
  intros Hl. revert n. induction Hl as [|x l Hx Hl IH]; intros [|n]; simpl;
    try constructor; auto.
  intros Hin. apply Hx. eapply in_firstn. exact Hin.
Qed.

Lemma NoDup_skipn {A : Type} n (l : list A) : NoDup l -> NoDup (skipn n l).
Proof.
  intros Hl. revert n. induction Hl as [|x l Hx Hl IH]; intros [|n]; simpl;
    try constructor; auto.
Qed.

(** When the extractor finds no [extracted_listings], the ids of a search
    result are pairwise different. *)
Lemma search_fallback_ids_unique (rt : Runtime) response location limit fbData extracted out :
  extractFbData rt (text response) = Ret fbData ->
  optget fbData "extracted_listings" = Ret extracted ->
  truthy extracted = false ->
  searchMarketplace rt response location limit = Ret out ->
  NoDup (map listing_id (results out)).
Proof.
  intros Hfb Hex Hfalsy H. unfold searchMarketplace in H.
  destruct (ok response); cbn [negb] in H; [|discriminate].
  bind_inv H. injection H as <-. cbn [results].
  unfold collect_listings in E. rewrite Hfb in E. cbn [bind] in E.
  rewrite Hex in E. cbn [bind] in E. rewrite Hfalsy in E.
  bind_inv E. injection E as <-. apply of_option_ret_inv in E0.
  apply item_link_scan_ids_unique in E0.
  unfold array_slice. rewrite <- firstn_map, <- skipn_map.
  apply NoDup_firstn, NoDup_skipn. exact E0.
Qed.

(** [getCategories] gives each slug once. *)
Lemma getCategories_ids_unique response categories :
  getCategories response = Ret categories -> NoDup (map category_id categories).
Proof.
  unfold getCategories. destruct (ok response); cbn [negb]; [|discriminate].
  intros H. bind_inv H. injection H as <-. apply of_option_ret_inv in E.
  assert (P : NoDup (fst a) /\ map category_id (snd a) = fst a).
  { revert E. apply regex_while_invariant with
      (P := fun st : list string * list MarketplaceCategory =>
              NoDup (fst st) /\ map category_id (snd st) = fst st).
    - intros m [seen res] [Hnd Hids] _. cbn [fst snd] in *.
      destruct (set_has seen _) eqn:E; cbn [fst snd]; [auto|].
      split.
      + apply NoDup_snoc; [exact Hnd|apply set_has_false; exact E].
      + rewrite map_app, Hids. reflexivity.
    - split; [constructor|reflexivity]. }
  destruct P as [Hnd ->]. exact Hnd.
Qed.

Lemma getCategories_terminates response : getCategories response <> Diverges.
Proof.
  unfold getCategories. destruct (ok response); cbn [negb]; [|discriminate].
  edestruct (@regex_while_terminates (list string * list MarketplaceCategory)%type
               catRegex (text response)) as (st & ->);
    [reflexivity| |cbn [of_option bind]; discriminate].
  lia.
Qed.

(** The specification's example: the same slug twice gives one category. *)
Example getCategories_same_slug_twice :
  getCategories
    (html_response
       ("<a href=" ++ quoted "/marketplace/category/vehicles/" ++ ">Vehicles</a>"
        ++ "<a href=" ++ quoted "/marketplace/category/vehicles" ++ "> Vehicles </a>"))
  = Ret [{| category_id := "vehicles"; category_name := "Vehicles";
            category_url := "https://www.facebook.com/marketplace/category/vehicles" |}].
Proof. vm_compute. reflexivity. Qed.

(** The structured branch has no such set. *)

(** C1, the failing input.  On a page that carries the same listing twice,
    the structured branch of [searchMarketplace] and of [getNewListings]
    returns two records with the id 1, whatever the runtime. *)
Theorem structured_branch_repeats_ids (rt : Runtime) :
  (exists out,
     searchMarketplace rt (html_response repeated_listing_page) None 20 = Ret out /\
     map listing_id (results out) = [VStr "1"; VStr "1"]) /\
  (exists out,
     getNewListings rt (html_response repeated_listing_page) "" 20 = Ret out /\
     map listing_id (new_results out) = [VStr "1"; VStr "1"]).
Proof.
  split; eexists; (split; [vm_compute; reflexivity|reflexivity]).
Qed.

(** C8, the failing input.  The escaped separators of an image address are
    left as they are: the pattern of line 97 matches the text [\/\/g], which
    the address does not contain. *)
Theorem images_keep_escaped_separators :
  parseListingFromHtml_images escaped_image_page
  = Ret ["https:\/\/cdn.example\/marketplace\/a.jpg"].
Proof. vm_compute. reflexivity. Qed.

(** The scan of the images returns. *)
Lemma parseListingFromHtml_images_returns html :
  exists images, parseListingFromHtml_images html = Ret images.
Proof.
  unfold parseListingFromHtml_images.
  edestruct (@regex_while_terminates (list string) imageRegex html) as (st & ->);
    [reflexivity| |eexists; reflexivity].
  lia.
Qed.

(** At most ten images are collected. *)
Lemma images_at_most_ten html images :
  parseListingFromHtml_images html = Ret images -> List.length images <= 10.
Proof.
  unfold parseListingFromHtml_images. intros H. apply of_option_ret_inv in H.
  revert H. apply regex_while_invariant with
    (P := fun images : list string => List.length images <= 10).
  - intros m st Hst Hg. apply Nat.ltb_lt in Hg. rewrite length_app. simpl. lia.
  - simpl. lia.
Qed.

(** ** String facts *)

Lemma string_app_length (a b : string) :
  String.length (a ++ b) = String.length a + String.length b.
Proof. induction a; simpl; auto. Qed.

Lemma string_app_assoc (a b c : string) : (a ++ b) ++ c = a ++ (b ++ c).
Proof. induction a; simpl; congruence. Qed.

Lemma string_rev_app (a b : string) : string_rev (a ++ b) = string_rev b ++ string_rev a.
Proof.
  induction a as [|x a IH]; simpl.
  - induction (string_rev b); simpl; congruence.
  - rewrite IH. apply string_app_assoc.
Qed.

Lemma ends_with_app (a b : string) : ends_with (a ++ b) b = true.
Proof.
  unfold ends_with. rewrite string_rev_app.
  induction (string_rev b) as [|x s IH]; simpl; auto.
  rewrite Ascii.eqb_refl. exact IH.
Qed.

(** ** Truncation *)

Lemma truncate_string (rt : Runtime) (s : string) (max : Z) :
  (0 <= max)%Z ->
  truncate rt (VStr s) max =
  if (Z.of_nat (String.length s) <=? max)%Z
  then Ret (VStr s)
  else Ret (VStr (take (Z.to_nat max) s ++ "...")).
Proof.
  intros Hmax. unfold truncate. destruct s as [|a s].
  - simpl. destruct (0 <=? max)%Z eqn:E; [reflexivity|apply Z.leb_gt in E; lia].
  - assert (Ht : truthy (VStr (String a s)) = true) by reflexivity.
    remember (String a s) as t. rewrite Ht. cbn [negb get bind js_le].
    change ("length" =? "length") with true. cbv iota. unfold js_le.
    destruct (Z.of_nat (String.length t) <=? max)%Z eqn:E; [reflexivity|].
    apply Z.leb_gt in E. cbn [call_slice bind ToString].
    unfold string_slice. rewrite !slice_bound_nonneg by lia.
    replace (Z.to_nat (Z.min 0 (Z.of_nat (String.length t)))) with 0 by lia.
    replace (Z.min max (Z.of_nat (String.length t)) - Z.min 0 (Z.of_nat (String.length t)))%Z
      with max by lia.
    reflexivity.
Qed.

(** C4.  For a cap that is at least 0 (500 and 1000 in the source): a text
    longer than the cap becomes its first [max] characters followed by
    ["..."], of length [max + 3]; a text of at most [max] characters is
    returned unchanged. *)
Theorem truncate_spec (rt : Runtime) (s : string) (max : Z) :
  (0 <= max)%Z ->
  ((max < Z.of_nat (String.length s))%Z ->
     exists t, truncate rt (VStr s) max = Ret (VStr t) /\
               t = take (Z.to_nat max) s ++ "..." /\
               Z.of_nat (String.length t) = (max + 3)%Z /\
               ends_with t "..." = true) /\
  ((Z.of_nat (String.length s) <= max)%Z -> truncate rt (VStr s) max = Ret (VStr s)).
Proof.
  intros Hmax. rewrite truncate_string by assumption. split; intros H.
  - apply Z.leb_gt in H. rewrite H. apply Z.leb_gt in H.
    eexists. split; [reflexivity|]. split; [reflexivity|].
    split; [|apply ends_with_app].
    rewrite string_app_length, take_length. simpl (String.length "..."). lia.
  - apply Z.leb_le in H. rewrite H. reflexivity.
Qed.

(** A twelve-character text cut at 5 and a three-character text left alone. *)
Lemma truncate_spec_witness :
  (exists t, truncate sample_runtime (VStr "hello, world") 5 = Ret (VStr t) /\
             t = "hello..." /\ Z.of_nat (String.length t) = 8%Z /\
             ends_with t "..." = true) /\
  truncate sample_runtime (VStr "abc") 5 = Ret (VStr "abc").
Proof.
  split.
  - apply (proj1 (@truncate_spec sample_runtime "hello, world" 5 ltac:(lia))).
    vm_compute. reflexivity.
  - apply (proj2 (@truncate_spec sample_runtime "abc" 5 ltac:(lia))).
    vm_compute. discriminate.
Defined.

(** ** Wrapped and unwrapped payloads *)

Lemma unwrap_wrapped kind d :
  truthy d = true ->
  (optget (wrapped kind d) "data" ||| Ret (wrapped kind d)) = Ret d.
Proof.
  intros Hd. unfold or_else, optget, wrapped. cbn [nullish get lookup bind].
  change ("kind" =? "data") with false. change ("data" =? "data") with true.
  cbv iota. rewrite Hd. reflexivity.
Qed.

Lemma truthy_not_nullish v : truthy v = true -> nullish v = false.
Proof. destruct v; simpl; congruence. Qed.

Lemma unwrap_plain d :
  truthy d = true ->
  (forall x, get d "data" = Ret x -> truthy x = false) ->
  (optget d "data" ||| Ret d) = Ret d.
Proof.
  intros Hd Hdata. unfold or_else, optget.
  rewrite truthy_not_nullish by assumption.
  destruct (get d "data") as [x| |] eqn:E; [|destruct d; discriminate..].
  cbn [bind]. rewrite (Hdata x eq_refl). reflexivity.
Qed.

(** C6 (amended).  For a payload [d] that is truthy and has no truthy [data]
    field of its own, the wrapped node [{kind, data: d}] and [d] itself give
    the same post and the same comment. *)
Theorem wrapped_and_unwrapped_agree (rt : Runtime) (kind d opAuthor : val) :
  truthy d = true ->
  (forall x, get d "data" = Ret x -> truthy x = false) ->
  parsePost rt (wrapped kind d) = parsePost rt d /\
  parseComment rt (wrapped kind d) opAuthor = parseComment rt d opAuthor.
Proof.
  intros Hd Hdata. unfold parsePost, parseComment.
  rewrite unwrap_wrapped, unwrap_plain by assumption. split; reflexivity.
Qed.

Lemma wrapped_and_unwrapped_agree_witness :
  parsePost sample_runtime (post_node "p1" "first" "alice" 4)
  = parsePost sample_runtime
      (VObj [("id", VStr "p1"); ("title", VStr "first");
             ("author", VStr "alice"); ("num_comments", VNum 4)]).
Proof.
  apply (@wrapped_and_unwrapped_agree sample_runtime (VStr "t3")
           (VObj [("id", VStr "p1"); ("title", VStr "first");
                  ("author", VStr "alice"); ("num_comments", VNum 4)]) VNull).
  - reflexivity.
  - intros x H. vm_compute in H. injection H as <-. reflexivity.
Defined.

(** C6, counterexample.  The payload [{title: "outer", data: {title:
    "inner"}}] is read as a wrapped node when it is passed directly (title
    ["inner"]) and as the payload when it is wrapped (title ["outer"]). *)
Lemma wrapped_payload_with_data_field_differs :
  (exists p q,
     parsePost sample_runtime (wrapped (VStr "t3") payload_with_data_field) = Ret p /\
     parsePost sample_runtime payload_with_data_field = Ret q /\
     post_title p = VStr "outer" /\ post_title q = VStr "inner") /\
  parsePost sample_runtime (wrapped (VStr "t3") payload_with_data_field)
  <> parsePost sample_runtime payload_with_data_field.
Proof.
  split.
  - do 2 eexists. repeat split; vm_compute; reflexivity.
  - vm_compute. discriminate.
Qed.

(** ** Search of posts *)

Lemma array_map_Forall2 {A B : Type} (f : A -> outcome B) l ys :
  array_map f l = Ret ys <-> Forall2 (fun x y => f x = Ret y) l ys.
Proof.
  revert ys. induction l as [|x l IH]; intros ys; simpl.
  - split; intros H.
    + injection H as <-. constructor.
    + inversion H. reflexivity.
  - split; intros H.
    + bind_inv H. bind_inv H. injection H as <-.
      constructor; auto. apply IH. assumption.
    + inversion H as [|? y ? ys' Hx Hl]; subst. rewrite Hx. cbn [bind].
      apply IH in Hl. rewrite Hl. reflexivity.
Qed.

(** C10.  A search that returns has mapped every element of the response's
    [data.children], in order, to a post: the number of results is the number
    of children and [total_results] is that number, so a response with more
    than [limit] children gives more than [limit] results.  [limit] reaches
    the transport only, as the query parameter [min(limit, 100)]. *)
Theorem searchReddit_maps_every_child (rt : Runtime) (proxyFetch : Transport)
    (query subreddit sort time : string) (limit : Z) (out : RedditSearch) :
  searchReddit rt proxyFetch query subreddit sort time limit = Ret out ->
  exists response body children,
    proxyFetch (searchReddit_url rt query subreddit sort time limit) = Ret response /\
    json response = Ret body /\
    ((d <- optget body "data" ;; optget d "children") ||| Ret (VArr [])) = Ret (VArr children) /\
    Forall2 (fun child p => parsePost rt child = Ret p) children (search_results out) /\
    List.length (search_results out) = List.length children /\
    search_total_results out = List.length (search_results out) /\
    ((limit < Z.of_nat (List.length children))%Z ->
     (limit < Z.of_nat (List.length (search_results out)))%Z) /\
    (exists before after,
       searchReddit_url rt query subreddit sort time limit
       = before ++ "&limit=" ++ Z_to_string (Z.min limit 100) ++ after).
Proof.
  intros H. unfold searchReddit in H. bind_inv H. rename a into response.
  destruct (ok response); cbn [negb] in H; [|discriminate].
  bind_inv H. bind_inv H. bind_inv H. injection H as <-.
  destruct a0 as [| | | | |children|]; try discriminate.
  apply array_map_Forall2 in E2.
  pose proof (Forall2_length E2) as Hlen.
  exists response, a, children. cbn [search_results search_total_results].
  repeat split; auto.
  - lia.
  - unfold searchReddit_url.
    exists (REDDIT_BASE
            ++ (if subreddit =? "all" then "" else "/r/" ++ encodeURIComponent rt subreddit)
            ++ "/search.json?q=" ++ encodeURIComponent rt query
            ++ "&sort=" ++ sort ++ "&t=" ++ time).
    exists ("&restrict_sr=" ++ (if negb (subreddit =? "all") then "on" else "off")).
    rewrite !string_app_assoc. reflexivity.
Qed.

(** Three posts in the response and [limit = 2]: three results. *)
Lemma searchReddit_maps_every_child_witness :
  exists out,
    searchReddit sample_runtime three_posts_transport "lamp" "all" "relevance" "week" 2
    = Ret out /\
    List.length (search_results out) = 3 /\ search_total_results out = 3.
Proof.
  eexists. split; [vm_compute; reflexivity|].
  match goal with
  | |- List.length (search_results ?o) = _ /\ _ =>
      destruct (@searchReddit_maps_every_child sample_runtime three_posts_transport
                  "lamp" "all" "relevance" "week" 2 o eq_refl)
        as (response & body & children & Hr & Hb & Hc & _ & Hlen & Htot & _)
  end.
  injection Hr as <-.
  vm_compute in Hb. injection Hb as <-.
  vm_compute in Hc. injection Hc as <-.
  split; [exact Hlen|]. rewrite Htot. exact Hlen.
Defined.

(** The address of that request. *)
Example searchReddit_url_limit_clamped :
  searchReddit_url sample_runtime "lamp" "all" "relevance" "week" 250
  = "https://www.reddit.com/search.json?q=lamp&sort=relevance&t=week&limit=100&restrict_sr=off".
Proof. vm_compute. reflexivity. Qed.

(** ** Outcomes of the normalisers *)

Lemma settled_bind {A B : Type} (m : outcome A) (f : A -> outcome B) :
  settled m -> (forall a, settled (f a)) -> settled (bind m f).
Proof. destruct m as [a|[|msg]|]; simpl; auto. Qed.

Lemma settled_get v k : settled (get v k).
Proof. destruct v; simpl; exact I. Qed.

Lemma settled_optget v k : settled (optget v k).
Proof. unfold optget. destruct (nullish v); [exact I|apply settled_get]. Qed.

Lemma settled_or_else a b : settled a -> settled b -> settled (a ||| b).
Proof.
  intros Ha Hb. apply settled_bind; auto. intros x. destruct (truthy x); simpl; auto.
Qed.

Lemma settled_coalesce a b : settled a -> settled b -> settled (a ??? b).
Proof.
  intros Ha Hb. apply settled_bind; auto. intros x. destruct (nullish x); simpl; auto.
Qed.

Lemma settled_call_slice v to : settled (call_slice v to).
Proof. destruct v; simpl; exact I. Qed.

Lemma settled_iterate v : settled (iterate v).
Proof. destruct v; simpl; exact I. Qed.

Lemma settled_for_of {A S : Type} (body : A -> S -> outcome S) l :
  (forall x st, In x l -> settled (body x st)) -> forall st, settled (for_of l st body).
Proof.
  induction l as [|x l IH]; intros Hbody st; simpl; [exact I|].
  apply settled_bind.
  - apply Hbody. left. reflexivity.
  - intros a. apply IH. intros y st' Hy. apply Hbody. right. exact Hy.
Qed.

(** Closes a goal [settled e] for a chain of binds over property reads. *)
Ltac settle :=
  repeat first
    [ exact I
    | apply settled_get
    | apply settled_optget
    | apply settled_call_slice
    | apply settled_iterate
    | apply settled_or_else
    | apply settled_coalesce
    | apply settled_bind; [|intros ?]
    | match goal with
      | |- settled (if ?c then _ else _) => destruct c
      end ].

Section DiscussionProperties.
Variable rt : Runtime.

Lemma settled_truncate text max : settled (truncate rt text max).
Proof. unfold truncate. settle. Qed.

Lemma settled_parsePost data : settled (parsePost rt data).
Proof. unfold parsePost. settle; apply settled_truncate. Qed.

Lemma settled_parseComment data opAuthor : settled (parseComment rt data opAuthor).
Proof. unfold parseComment. settle; apply settled_truncate. Qed.

End DiscussionProperties.

(** ** The height of a reply forest bounds the nesting of the calls *)

Lemma lookup_height k o :
  vheight (lookup k o) <= fold_right (fun kv m => Nat.max (vheight (snd kv)) m) 0 o.
Proof.
  induction o as [|[k' v] o IH]; simpl; [lia|].
  destruct (k' =? k); lia.
Qed.

Lemma get_height v k v' : get v k = Ret v' -> vheight v' <= vheight v.
Proof.
  destruct v; simpl; intros H; try discriminate; injection H as <-.
  - simpl. lia.
  - simpl. lia.
  - destruct (k =? "length"); simpl; lia.
  - destruct (k =? "length"); simpl; lia.
  - pose proof (lookup_height k fields). simpl. lia.
Qed.

Lemma optget_height v k v' : optget v k = Ret v' -> vheight v' <= vheight v.
Proof.
  unfold optget. destruct (nullish v).
  - intros H. injection H as <-. simpl. lia.
  - apply get_height.
Qed.

Lemma replies_of_height child l :
  replies_of child = Ret (VArr l) -> lheight l < vheight child.
Proof.
  unfold replies_of. intros H. do 3 bind_inv H.
  apply get_height in E. apply optget_height in E0, E1, H.
  change (vheight (VArr l)) with (S (lheight l)) in H. lia.
Qed.

Lemma in_lheight x l : In x l -> vheight x <= lheight l.
Proof.
  induction l as [|y l IH]; simpl; intros H; [contradiction|].
  destruct H as [->|H]; [lia|]. apply IH in H. lia.
Qed.

Lemma lheight_app l1 l2 : lheight (l1 ++ l2) = Nat.max (lheight l1) (lheight l2).
Proof. induction l1 as [|x l1 IH]; simpl; [reflexivity|]. rewrite IH. lia. Qed.

Lemma for_of_ext_in {A S : Type} (f g : A -> S -> outcome S) l :
  (forall x st, In x l -> f x st = g x st) ->
  forall st, for_of l st f = for_of l st g.
Proof.
  induction l as [|x l IH]; intros H st; simpl; [reflexivity|].
  rewrite H by (left; reflexivity).
  destruct (g x st); simpl; auto. apply IH. intros y st' Hy. apply H. right. exact Hy.
Qed.

Lemma for_of_app {A S : Type} (body : A -> S -> outcome S) l1 l2 st :
  for_of (l1 ++ l2) st body = (st' <- for_of l1 st body ;; for_of l2 st' body).
Proof.
  revert st. induction l1 as [|x l1 IH]; intros st; simpl; [reflexivity|].
  destruct (body x st); simpl; auto.
Qed.

Section FlattenProperties.
Variable rt : Runtime.
Variable opAuthor : val.
Variable maxDepth : Z.

Lemma flattenComments_rec_unfold budget children :
  flattenComments_rec rt (S budget) children opAuthor maxDepth
  = for_of children [] (flatten_step rt budget opAuthor maxDepth).
Proof. reflexivity. Qed.

Lemma step_stable b1 b2 child results :
  (forall l, lheight l < vheight child ->
     flattenComments_rec rt b1 l opAuthor maxDepth
     = flattenComments_rec rt b2 l opAuthor maxDepth) ->
  flatten_step rt b1 opAuthor maxDepth child results
  = flatten_step rt b2 opAuthor maxDepth child results.
Proof.
  intros Hrec. unfold flatten_step.
  destruct (get child "kind") as [kind| |]; cbn [bind]; auto.
  destruct (strict_eq kind (VStr "more")); auto.
  destruct (parseComment rt child opAuthor) as [comment| |]; cbn [bind]; auto.
  destruct (replies_of child) as [replies| |] eqn:E; cbn [bind]; auto.
  destruct replies; auto.
  rewrite Hrec; auto. apply replies_of_height. exact E.
Qed.

Lemma flattenComments_rec_stable b1 :
  forall b2 children,
    lheight children < b1 -> lheight children < b2 ->
    flattenComments_rec rt b1 children opAuthor maxDepth
    = flattenComments_rec rt b2 children opAuthor maxDepth.
Proof.
  induction b1 as [|b1 IH]; intros b2 children H1 H2; [lia|].
  destruct b2 as [|b2]; [lia|].
  rewrite !flattenComments_rec_unfold.
  apply for_of_ext_in. intros child results Hin.
  apply step_stable. intros l Hl.
  apply in_lheight in Hin. apply IH; lia.
Qed.

Lemma flattenComments_rec_settled budget :
  forall children,
    lheight children < budget ->
    settled (flattenComments_rec rt budget children opAuthor maxDepth).
Proof.
  induction budget as [|budget IH]; intros children H; [lia|].
  rewrite flattenComments_rec_unfold.
  apply settled_for_of. intros child results Hin. unfold flatten_step.
  apply settled_bind; [apply settled_get|]. intros kind.
  destruct (strict_eq kind (VStr "more")); [exact I|].
  apply settled_bind; [apply settled_parseComment|]. intros comment.
  destruct (replies_of child) as [replies| |] eqn:E; cbn [bind].
  - destruct replies; try exact I.
    apply settled_bind; [|intros; exact I].
    apply IH. apply replies_of_height in E. apply in_lheight in Hin. lia.
  - assert (Hs : settled (replies_of child)) by (unfold replies_of; settle).
    rewrite E in Hs. exact Hs.
  - assert (Hs : settled (replies_of child)) by (unfold replies_of; settle).
    rewrite E in Hs. exact Hs.
Qed.

End FlattenProperties.

(** ** Termination of the flattening *)

Lemma chain_from_needs_budget (rt : Runtime) (opAuthor : val) (maxDepth : Z) n :
  forall d, flattenComments_rec rt n (chain_from d n) opAuthor maxDepth = Diverges.
Proof.
  induction n as [|n IH]; intros d; [reflexivity|].
  cbn [flattenComments_rec chain_from for_of].
  change (get (comment_node "c" "bob" d (listing_of (chain_from (d + 1) n))) "kind")
    with (Ret (VStr "t1")).
  cbn [bind]. change (strict_eq (VStr "t1") (VStr "more")) with false. cbv iota.
  destruct (parseComment rt _ opAuthor) as [comment| |] eqn:E.
  - cbn [bind].
    change (replies_of (comment_node "c" "bob" d (listing_of (chain_from (d + 1) n))))
      with (Ret (VArr (chain_from (d + 1) n))).
    cbn [bind]. rewrite IH. reflexivity.
  - exfalso. revert E. unfold parseComment, comment_node, listing_of, truncate.
    vm_compute. discriminate.
  - pose proof (settled_parseComment rt
                  (comment_node "c" "bob" d (listing_of (chain_from (d + 1) n))) opAuthor) as Hs.
    rewrite E in Hs. contradiction.
Qed.

(** C9.  A budget above the height of the forest is enough for
    [flattenComments], whose result then does not depend on the budget and is
    a list of comments or a [TypeError]; each nested call is on the loaded
    children of a node, a forest of smaller height.  No ceiling exists: for
    every [n], [n] nested calls do not suffice for the chain of [n + 1]
    comments, whatever [maxDepth] is. *)
Theorem flattenComments_terminates (rt : Runtime) (children : list val) (opAuthor : val)
    (maxDepth : Z) :
  (forall budget, lheight children < budget ->
     flattenComments_rec rt budget children opAuthor maxDepth
     = flattenComments rt children opAuthor maxDepth) /\
  settled (flattenComments rt children opAuthor maxDepth) /\
  flattenComments rt children opAuthor maxDepth <> Diverges /\
  (forall child, In child children ->
     loaded_children child = [] \/ lheight (loaded_children child) < lheight children) /\
  (forall n, flattenComments_rec rt n (chain n) opAuthor maxDepth = Diverges).
Proof.
  assert (Hs : settled (flattenComments rt children opAuthor maxDepth)).
  { apply flattenComments_rec_settled. lia. }
  repeat split.
  - intros budget H. apply flattenComments_rec_stable; lia.
  - exact Hs.
  - intros E. rewrite E in Hs. exact Hs.
  - intros child Hin. unfold loaded_children.
    destruct (replies_of child) as [[]| |] eqn:E; auto.
    right. apply replies_of_height in E. apply in_lheight in Hin. lia.
  - intros n. apply chain_from_needs_budget.
Qed.

(** The chain of five comments, flattened with a budget of 30. *)
Lemma flattenComments_terminates_witness :
  flattenComments_rec sample_runtime 30 (chain 4) (VStr "alice") 3
  = flattenComments sample_runtime (chain 4) (VStr "alice") 3.
Proof.
  apply (proj1 (flattenComments_terminates sample_runtime (chain 4) (VStr "alice") 3)).
  vm_compute. lia.
Defined.

(** ** What the flattening emits *)

Lemma array_map_app {A B : Type} (f : A -> outcome B) l1 l2 ys1 ys2 :
  array_map f l1 = Ret ys1 -> array_map f l2 = Ret ys2 ->
  array_map f (l1 ++ l2) = Ret (ys1 ++ ys2)%list.
Proof.
  rewrite !array_map_Forall2. apply Forall2_app.
Qed.

Lemma flat_map_ext_in {A B : Type} (f g : A -> list B) l :
  (forall x, In x l -> f x = g x) -> flat_map f l = flat_map g l.
Proof.
  induction l as [|x l IH]; intros H; simpl; [reflexivity|].
  rewrite H by (left; reflexivity). f_equal. apply IH.
  intros y Hy. apply H. right. exact Hy.
Qed.

Lemma preorder_rec_nil budget : preorder_rec budget [] = [].
Proof. destruct budget; reflexivity. Qed.

Lemma preorder_rec_stable b1 :
  forall b2 children,
    lheight children < b1 -> lheight children < b2 ->
    preorder_rec b1 children = preorder_rec b2 children.
Proof.
  induction b1 as [|b1 IH]; intros b2 children H1 H2; [lia|].
  destruct b2 as [|b2]; [lia|]. cbn [preorder_rec].
  apply flat_map_ext_in. intros child Hin.
  destruct (is_more child); [reflexivity|]. f_equal.
  unfold loaded_children.
  destruct (replies_of child) as [[]| |] eqn:E;
    try (rewrite !preorder_rec_nil; reflexivity).
  apply replies_of_height in E. apply in_lheight in Hin. apply IH; lia.
Qed.

Lemma preorder_rec_not_more budget :
  forall children x, In x (preorder_rec budget children) -> is_more x = false.
Proof.
  induction budget as [|budget IH]; intros children x H; [contradiction|].
  cbn [preorder_rec] in H. apply in_flat_map in H. destruct H as (child & _ & H).
  destruct (is_more child) eqn:E; [contradiction|].
  destruct H as [<-|H]; [exact E|]. eapply IH. exact H.
Qed.

Section EmissionProperties.
Variable rt : Runtime.
Variable opAuthor : val.
Variable maxDepth : Z.

Lemma flattenComments_rec_preorder budget :
  forall children out,
    flattenComments_rec rt budget children opAuthor maxDepth = Ret out ->
    exists all,
      array_map (fun node => parseComment rt node opAuthor)
        (preorder_rec budget children) = Ret all /\
      out = filter (fun c => js_le rt (depth c) maxDepth) all.
Proof.
  set (within := fun c : RedditComment => js_le rt (depth c) maxDepth).
  set (normalise := fun node : val => parseComment rt node opAuthor).
  induction budget as [|budget IH]; intros children out H; [discriminate|].
  rewrite flattenComments_rec_unfold in H. cbn [preorder_rec].
  assert (Hacc : forall acc,
    for_of children acc (flatten_step rt budget opAuthor maxDepth) = Ret out ->
    exists all,
      array_map normalise
        (flat_map (fun child =>
                     if is_more child then []
                     else child :: preorder_rec budget (loaded_children child))
                  children) = Ret all /\
      out = (acc ++ filter within all)%list).
  { clear H. induction children as [|child children IHc]; intros acc H.
    - cbn [for_of] in H. injection H as <-. exists []. split; [reflexivity|].
      simpl. rewrite app_nil_r. reflexivity.
    - cbn [for_of] in H. bind_inv H. rename a into acc1.
      unfold flatten_step in E.
      bind_inv E. rename a into kind. cbn [flat_map].
      unfold is_more at 1. rewrite E0.
      destruct (strict_eq kind (VStr "more")).
      + injection E as <-. cbn [app]. apply IHc. exact H.
      + bind_inv E. rename a into comment. bind_inv E. rename a into replies.
        apply IHc in H. destruct H as (rest & Hrest & ->).
        assert (Hnested : exists nested all_n,
                  array_map normalise (preorder_rec budget (loaded_children child))
                  = Ret all_n /\
                  nested = filter within all_n /\
                  acc1 = ((if within comment then acc ++ [comment] else acc) ++ nested)%list).
        { unfold loaded_children. rewrite E2.
          destruct replies;
            try (injection E as <-; exists [], []; rewrite preorder_rec_nil;
                 repeat split; rewrite ?app_nil_r; reflexivity).
          bind_inv E. injection E as <-.
          apply IH in E3. destruct E3 as (all_n & Hn & ->).
          exists (filter within all_n), all_n. repeat split. exact Hn. }
        destruct Hnested as (nested & all_n & Hn & -> & ->).
        exists (comment :: all_n ++ rest)%list. split.
        * cbn [app array_map]. unfold normalise at 1.
          rewrite E1. cbn [bind].
          rewrite (array_map_app _ _ _ Hn Hrest). reflexivity.
        * cbn [filter]. rewrite filter_app.
          destruct (within comment); rewrite <- ?app_assoc; reflexivity. }
  apply Hacc in H. exact H.
Qed.

End EmissionProperties.

(** C2.  The nodes [flattenComments] visits are those of [preorder]: every
    node that is not a continuation marker and hangs below no such marker,
    at every depth, independently of [maxDepth].  The output is the
    normalised records of these nodes, in that order, that have
    [depth <= maxDepth]: a visited node's record is in the output exactly
    when its depth is at most [maxDepth]. *)
Theorem flattenComments_emits_within_maxDepth (rt : Runtime) (children : list val)
    (opAuthor : val) (maxDepth : Z) (out : list RedditComment) :
  flattenComments rt children opAuthor maxDepth = Ret out ->
  exists all,
    array_map (fun node => parseComment rt node opAuthor) (preorder children) = Ret all /\
    out = filter (fun c => js_le rt (depth c) maxDepth) all /\
    (forall c, In c all -> (In c out <-> js_le rt (depth c) maxDepth = true)) /\
    (forall budget, lheight children < budget ->
       preorder_rec budget children = preorder children).
Proof.
  intros H. apply flattenComments_rec_preorder in H.
  destruct H as (all & Hall & ->). exists all.
  split; [exact Hall|]. split; [reflexivity|]. split.
  - intros c Hc. rewrite filter_In. tauto.
  - intros budget Hb. apply preorder_rec_stable; lia.
Qed.

(** The specification's fixture: comments at the depths 0 to 4 and
    [maxDepth = 3].  All five nodes are visited; the output holds the four
    of depth at most 3. *)
Lemma flattenComments_emits_within_maxDepth_witness :
  exists out all,
    flattenComments sample_runtime (chain 4) (VStr "alice") 3 = Ret out /\
    array_map (fun node => parseComment sample_runtime node (VStr "alice"))
      (preorder (chain 4)) = Ret all /\
    map depth all = [VNum 0; VNum 1; VNum 2; VNum 3; VNum 4] /\
    map depth out = [VNum 0; VNum 1; VNum 2; VNum 3] /\
    out = filter (fun c => js_le sample_runtime (depth c) 3) all.
Proof.
  destruct (@flattenComments_emits_within_maxDepth sample_runtime (chain 4)
              (VStr "alice") 3 _ eq_refl) as (all & Hall & Hout & _).
  eexists. exists all. split; [reflexivity|]. split; [exact Hall|].
  vm_compute in Hall. injection Hall as <-.
  split; [reflexivity|]. split; [reflexivity|]. exact Hout.
Defined.

(** ** Continuation markers *)

Lemma array_map_app_eq {A B : Type} (f : A -> outcome B) l1 l2 :
  array_map f (l1 ++ l2)
  = (ys1 <- array_map f l1 ;; ys2 <- array_map f l2 ;; Ret (ys1 ++ ys2)%list).
Proof.
  induction l1 as [|x l1 IH]; cbn [app array_map bind].
  - destruct (array_map f l2); reflexivity.
  - destruct (f x) as [y| |]; cbn [bind]; try reflexivity.
    rewrite IH. destruct (array_map f l1) as [ys1| |]; cbn [bind]; try reflexivity.
    destruct (array_map f l2) as [ys2| |]; reflexivity.
Qed.

Lemma get_cases child k :
  (exists v, get child k = Ret v /\ nullish child = false) \/
  (get child k = Throws TypeError /\ nullish child = true).
Proof. destruct child; cbn [get nullish]; eauto. Qed.

Lemma optget_returns v k : exists x, optget v k = Ret x.
Proof.
  unfold optget. destruct (nullish v) eqn:E; [eauto|].
  destruct v; try discriminate; cbn [get]; eauto.
Qed.

Lemma replies_of_returns child :
  nullish child = false -> exists replies, replies_of child = Ret replies.
Proof.
  intros H. unfold replies_of.
  destruct child; try discriminate; cbn [get bind];
    match goal with
    | |- context [optget ?d "replies"] =>
        destruct (optget_returns d "replies") as (r & ->); cbn [bind];
        destruct (optget_returns r "data") as (rd & ->); cbn [bind];
        apply optget_returns
    end.
Qed.

Lemma parseComment_of_nullish (rt : Runtime) child opAuthor :
  nullish child = true -> parseComment rt child opAuthor = Throws TypeError.
Proof. intros H. destruct child; try discriminate; reflexivity. Qed.

Section SkippingProperties.
Variable rt : Runtime.
Variable opAuthor : val.
Variable maxDepth : Z.

Lemma flattenComments_rec_outcome budget :
  forall children,
    lheight children < budget ->
    flattenComments_rec rt budget children opAuthor maxDepth
    = (all <- array_map (fun node => parseComment rt node opAuthor)
                (preorder_rec budget children) ;;
       Ret (filter (fun c => js_le rt (depth c) maxDepth) all)).
Proof.
  induction budget as [|budget IH]; intros children Hh; [lia|].
  rewrite flattenComments_rec_unfold. cbn [preorder_rec].
  enough (Hacc : forall acc,
    for_of children acc (flatten_step rt budget opAuthor maxDepth)
    = (all <- array_map (fun node => parseComment rt node opAuthor)
                (flat_map (fun child =>
                             if is_more child then []
                             else child :: preorder_rec budget (loaded_children child))
                          children) ;;
       Ret (acc ++ filter (fun c => js_le rt (depth c) maxDepth) all)%list)).
  { rewrite (Hacc []). destruct (array_map _ _); reflexivity. }
  induction children as [|child children IHc]; intros acc.
  - cbn. rewrite app_nil_r. reflexivity.
  - assert (Hchild : vheight child <= budget /\ lheight children < S budget).
    { unfold lheight in Hh. cbn [fold_right] in Hh. fold (lheight children) in Hh. lia. }
    destruct Hchild as (Hchild & Hrest). specialize (IHc Hrest).
    cbn [for_of flat_map]. unfold flatten_step at 1. unfold is_more at 1.
    destruct (get_cases child "kind") as [(kind & -> & Hn) | (-> & Hn)]; cbn [bind].
    + destruct (strict_eq kind (VStr "more")); [apply IHc|].
      cbn [app array_map].
      destruct (parseComment rt child opAuthor) as [comment| |]; cbn [bind];
        try reflexivity.
      destruct (replies_of_returns child Hn) as (replies & Er).
      unfold loaded_children. rewrite Er. cbn [bind].
      assert (Hplain :
        for_of children
          (if js_le rt (depth comment) maxDepth then acc ++ [comment] else acc)%list
          (flatten_step rt budget opAuthor maxDepth)
        = (ys <- array_map (fun node => parseComment rt node opAuthor)
                   ([] ++ flat_map (fun child0 =>
                                if is_more child0 then []
                                else child0 :: preorder_rec budget (loaded_children child0))
                             children) ;;
           Ret (acc ++ filter (fun c => js_le rt (depth c) maxDepth) (comment :: ys))%list)).
      { rewrite IHc. cbn [app]. destruct (array_map _ _) as [ys| |]; cbn [bind filter];
          try reflexivity.
        destruct (js_le rt (depth comment) maxDepth); rewrite <- ?app_assoc; reflexivity. }
      destruct replies as [| | | | |l|];
        try (rewrite preorder_rec_nil; cbn [bind]; rewrite Hplain;
             destruct (array_map _ _); reflexivity).
      rewrite IH.
      2:{ pose proof (replies_of_height _ Er). lia. }
      rewrite array_map_app_eq.
      destruct (array_map _ (preorder_rec budget l)) as [all_n| |]; cbn [bind];
        try reflexivity.
      rewrite IHc. destruct (array_map _ _) as [ys| |]; cbn [bind filter]; try reflexivity.
      rewrite filter_app.
      destruct (js_le rt (depth comment) maxDepth); rewrite <- ?app_assoc; reflexivity.
    + cbn [app array_map]. rewrite parseComment_of_nullish by exact Hn. reflexivity.
Qed.

End SkippingProperties.
Lemma in_indexed_from {A : Type} (l : list A) :
  forall start i x,
    In (i, x) (indexed_from start l) <-> start <= i /\ nth_error l (i - start) = Some x.
Proof.
  induction l as [|y l IH]; intros start i x; unfold indexed_from; cbn [List.length seq combine].
  - split; [contradiction|]. intros (_ & H). destruct (i - start); discriminate.
  - fold (indexed_from (S start) l). cbn [In]. rewrite IH. split.
    + intros [E | (Hle & Hn)].
      * injection E as <- <-. split; [lia|]. rewrite Nat.sub_diag. reflexivity.
      * split; [lia|]. replace (i - start) with (S (i - S start)) by lia. exact Hn.
    + intros (Hle & Hn). destruct (Nat.eq_dec i start) as [->|Hne].
      * left. rewrite Nat.sub_diag in Hn. injection Hn as <-. reflexivity.
      * right. split; [lia|].
        replace (i - start) with (S (i - S start)) in Hn by lia. exact Hn.
Qed.

Lemma NoDup_app_disjoint {A : Type} (l1 l2 : list A) :
  NoDup l1 -> NoDup l2 -> (forall x, In x l1 -> ~ In x l2) -> NoDup (l1 ++ l2).
Proof.
  induction l1 as [|x l1 IH]; intros H1 H2 Hd; [exact H2|].
  inversion H1 as [|? ? Hx H1']; subst. cbn [app]. constructor.
  - rewrite in_app_iff. intros [Hin | Hin]; [exact (Hx Hin)|].
    exact (Hd x (or_introl eq_refl) Hin).
  - apply IH; [exact H1' | exact H2|]. intros y Hy. apply Hd. right. exact Hy.
Qed.

Lemma NoDup_map_cons {A : Type} (a : A) (l : list (list A)) :
  NoDup l -> NoDup (map (cons a) l).
Proof.
  induction 1 as [|p l Hp _ IH]; cbn [map]; constructor; [|exact IH].
  rewrite in_map_iff. intros (q & E & Hq). injection E as ->. exact (Hp Hq).
Qed.

Lemma loaded_children_height child :
  loaded_children child = [] \/ lheight (loaded_children child) < vheight child.
Proof.
  unfold loaded_children. destruct (replies_of child) as [replies| |] eqn:E; auto.
  destruct replies; auto. right. apply replies_of_height. exact E.
Qed.

Lemma node_at_cons i path children child :
  nth_error children i = Some child ->
  node_at (i :: path) children
  = match path with
    | [] => Some child
    | _ => node_at path (loaded_children child)
    end.
Proof. intros H. cbn [node_at]. rewrite H. reflexivity. Qed.

Lemma clear_paths_sound budget :
  forall children path,
    In path (clear_paths budget children) ->
    (exists node, node_at path children = Some node) /\ meets_marker path children = false.
Proof.
  induction budget as [|budget IH]; intros children path H; [contradiction|].
  cbn [clear_paths] in H. apply in_flat_map in H. destruct H as ((i & child) & Hin & H).
  apply in_indexed_from in Hin. destruct Hin as (_ & Hnth). rewrite Nat.sub_0_r in Hnth.
  cbn [fst snd] in H. destruct (is_more child) eqn:Em; [contradiction|].
  destruct H as [<- | H].
  - split.
    + exists child. rewrite (@node_at_cons _ _ _ _ Hnth). reflexivity.
    + cbn [meets_marker]. rewrite Hnth, Em. reflexivity.
  - apply in_map_iff in H. destruct H as (path' & <- & Hin).
    apply IH in Hin. destruct Hin as ((node & Hnode) & Hclear). split.
    + exists node. rewrite (@node_at_cons _ _ _ _ Hnth).
      destruct path'; [discriminate | exact Hnode].
    + cbn [meets_marker]. rewrite Hnth, Em. exact Hclear.
Qed.

Lemma clear_paths_complete path :
  forall budget children node,
    lheight children < budget ->
    node_at path children = Some node ->
    meets_marker path children = false ->
    In path (clear_paths budget children).
Proof.
  induction path as [|i path IH]; intros budget children node Hb Hnode Hclear;
    [discriminate|].
  destruct budget as [|budget]; [lia|].
  cbn [node_at] in Hnode. cbn [meets_marker] in Hclear.
  destruct (nth_error children i) as [child|] eqn:Hnth; [|discriminate].
  apply orb_false_elim in Hclear. destruct Hclear as (Em & Hclear).
  cbn [clear_paths]. apply in_flat_map. exists (i, child). split.
  - apply in_indexed_from. rewrite Nat.sub_0_r. split; [lia | exact Hnth].
  - cbn [fst snd]. rewrite Em. destruct path as [|j path]; [left; reflexivity|].
    right. apply in_map. apply (IH budget _ node); [|exact Hnode | exact Hclear].
    pose proof (in_lheight _ _ (nth_error_In _ _ Hnth)) as Hh.
    destruct (loaded_children_height child) as [E | Hl]; [|lia].
    rewrite E in Hnode. cbn [node_at] in Hnode. destruct j; discriminate.
Qed.

Lemma clear_paths_heads budget children start path :
  In path
    (flat_map (fun ic : nat * val =>
                 if is_more (snd ic) then []
                 else [fst ic]
                      :: map (cons (fst ic)) (clear_paths budget (loaded_children (snd ic))))
              (indexed_from start children)) ->
  exists i path', path = i :: path' /\ start <= i.
Proof.
  intros H. apply in_flat_map in H. destruct H as ((i & child) & Hin & H).
  apply in_indexed_from in Hin. destruct Hin as (Hle & _). cbn [fst snd] in H.
  destruct (is_more child); [contradiction|]. destruct H as [<- | H]; [eauto|].
  apply in_map_iff in H. destruct H as (path' & <- & _). eauto.
Qed.

Lemma clear_paths_NoDup budget : forall children, NoDup (clear_paths budget children).
Proof.
  induction budget as [|budget IH]; intros children; [constructor|].
  cbn [clear_paths]. generalize 0 as start.
  induction children as [|child children IHc]; intros start; [constructor|].
  unfold indexed_from. cbn [List.length seq combine flat_map fst snd].
  fold (indexed_from (S start) children).
  apply NoDup_app_disjoint; [| apply IHc |].
  - destruct (is_more child); constructor.
    + rewrite in_map_iff. intros (path' & E & Hin). injection E as ->.
      apply clear_paths_sound in Hin. destruct Hin as ((node & Hnode) & _). discriminate.
    + apply NoDup_map_cons. apply IH.
  - intros path H1 H2. apply clear_paths_heads in H2. destruct H2 as (i & path' & -> & Hle).
    destruct (is_more child); [contradiction|]. destruct H1 as [E | H1].
    + injection E as -> _. lia.
    + apply in_map_iff in H1. destruct H1 as (q & E & _). injection E as -> _. lia.
Qed.

Lemma clear_paths_nodes budget :
  forall children,
    Forall2 (fun path node => node_at path children = Some node)
      (clear_paths budget children) (preorder_rec budget children).
Proof.
  induction budget as [|budget IH]; intros children; [constructor|].
  cbn [clear_paths preorder_rec].
  enough (H : forall l start,
             (forall i x, In (i, x) (indexed_from start l) -> nth_error children i = Some x) ->
             Forall2 (fun path node => node_at path children = Some node)
               (flat_map (fun ic : nat * val =>
                            if is_more (snd ic) then []
                            else [fst ic]
                                 :: map (cons (fst ic))
                                      (clear_paths budget (loaded_children (snd ic))))
                         (indexed_from start l))
               (flat_map (fun child =>
                            if is_more child then []
                            else child :: preorder_rec budget (loaded_children child))
                         l)).
  { apply H. intros i x Hin. apply in_indexed_from in Hin.
    rewrite Nat.sub_0_r in Hin. apply Hin. }
  induction l as [|child l IHl]; intros start Hnth; [constructor|].
  unfold indexed_from. cbn [List.length seq combine flat_map fst snd].
  fold (indexed_from (S start) l).
  assert (Hc : nth_error children start = Some child).
  { apply Hnth. left. reflexivity. }
  apply Forall2_app.
  - destruct (is_more child); constructor.
    + rewrite (@node_at_cons _ _ _ _ Hc). reflexivity.
    + specialize (IH (loaded_children child)).
      induction IH as [|path node paths nodes Hnode _ IHp]; cbn [map]; constructor;
        [|exact IHp].
      rewrite (@node_at_cons _ _ _ _ Hc). destruct path; [discriminate | exact Hnode].
  - apply IHl. intros i x Hin. apply Hnth. right. exact Hin.
Qed.

(** C5.  A node of kind ['more'] adds nothing to the output and is not
    visited, and neither is anything reached through it, wherever in the
    forest it stands.  The outcome of [flattenComments], a result or an
    error, is that of normalising the nodes of [preorder] one after the
    other and keeping the records within [maxDepth]; these nodes are the
    nodes at the positions that exist and have no such marker on the way to
    them, the node itself included, each position once; so no visited node
    is a marker.  A marker among the children given can be taken out,
    whatever it holds: the output and the visited nodes stay the same. *)
Theorem continuation_marker_is_skipped (rt : Runtime) (children : list val)
    (opAuthor : val) (maxDepth : Z) :
  flattenComments rt children opAuthor maxDepth
  = (all <- array_map (fun node => parseComment rt node opAuthor) (preorder children) ;;
     Ret (filter (fun c => js_le rt (depth c) maxDepth) all)) /\
  (exists paths,
     Forall2 (fun path node => node_at path children = Some node)
       paths (preorder children) /\
     NoDup paths /\
     (forall path,
        In path paths <->
        (exists node, node_at path children = Some node) /\
        meets_marker path children = false)) /\
  (forall node, In node (preorder children) -> is_more node = false) /\
  (forall pre m post,
     children = (pre ++ m :: post)%list ->
     is_more m = true ->
     flattenComments rt children opAuthor maxDepth
     = flattenComments rt (pre ++ post) opAuthor maxDepth /\
     preorder children = preorder (pre ++ post) /\
     ~ In m (preorder children)).
Proof.
  split; [|split; [|split]].
  - unfold flattenComments, preorder. apply flattenComments_rec_outcome. lia.
  - exists (clear_paths (S (lheight children)) children).
    split; [apply clear_paths_nodes|]. split; [apply clear_paths_NoDup|].
    intros path. split.
    + apply clear_paths_sound.
    + intros ((node & Hnode) & Hclear).
      apply (@clear_paths_complete path _ _ node); [lia | exact Hnode | exact Hclear].
  - intros node Hin. eapply preorder_rec_not_more. exact Hin.
  - intros pre m post -> Hm.
    assert (Hh : lheight (pre ++ post) <= lheight (pre ++ m :: post)).
    { rewrite !lheight_app. simpl. lia. }
    split; [|split].
    + unfold flattenComments at 2.
      rewrite (@flattenComments_rec_stable rt opAuthor maxDepth
                 (S (lheight (pre ++ post))) (S (lheight (pre ++ m :: post))))
        by lia.
      unfold flattenComments. cbn [flattenComments_rec].
      rewrite !for_of_app. cbn [for_of].
      destruct (for_of pre [] _) as [acc| |]; cbn [bind]; auto.
      unfold is_more in Hm. destruct (get m "kind") as [kind| |]; try discriminate.
      cbn [bind]. rewrite Hm. reflexivity.
    + unfold preorder at 2.
      rewrite (@preorder_rec_stable (S (lheight (pre ++ post)))
                 (S (lheight (pre ++ m :: post)))) by lia.
      unfold preorder. cbn [preorder_rec].
      rewrite !flat_map_app. cbn [flat_map]. rewrite Hm. reflexivity.
    + intros Hin. apply preorder_rec_not_more in Hin. congruence.
Qed.

(** A marker with two hidden comments below it, between two comments; and
    the same marker one level down, between two replies: the three comments
    around it are the output. *)
Lemma continuation_marker_is_skipped_witness :
  flattenComments sample_runtime
    ([comment_node "a" "bob" 0 (VStr "")]
       ++ more_node (chain 1) :: [comment_node "b" "eve" 0 (VStr "")]) (VStr "alice") 3
  = flattenComments sample_runtime
      ([comment_node "a" "bob" 0 (VStr "")] ++ [comment_node "b" "eve" 0 (VStr "")])
      (VStr "alice") 3 /\
  exists out,
    flattenComments sample_runtime nested_marker_forest (VStr "alice") 3 = Ret out /\
    map comment_id out = [VStr "c1"; VStr "c2"; VStr "c3"].
Proof.
  split.
  - apply (proj2 (proj2 (proj2
             (@continuation_marker_is_skipped sample_runtime
                ([comment_node "a" "bob" 0 (VStr "")]
                   ++ more_node (chain 1) :: [comment_node "b" "eve" 0 (VStr "")])
                (VStr "alice") 3)))
           [comment_node "a" "bob" 0 (VStr "")] (more_node (chain 1))
           [comment_node "b" "eve" 0 (VStr "")] eq_refl eq_refl).
  - eexists. split.
    + rewrite (proj1 (@continuation_marker_is_skipped sample_runtime nested_marker_forest
                        (VStr "alice") 3)).
      vm_compute. reflexivity.
    + reflexivity.
Defined.

(** ** Threads *)

(** C7 (amended).  For a response that parses to [body], [getThread] throws
    its own error, "Invalid thread response", exactly when [body] is not an
    array of at least two elements; otherwise it returns or throws a
    [TypeError].  The elements after the second are ignored: the outcome
    is that of the response with the first two elements alone.  A thread it
    returns has the normalised first child of the first element as its
    post, the flattened children of the second element as its comments, and
    the [num_comments] of its post as [total_comments]. *)
Theorem getThread_shape (rt : Runtime) (threadId : string) (response : Response)
    (body : val) :
  ok response = true ->
  json response = Ret body ->
  (getThread rt threadId response
     = Throws (Error ("Invalid thread response for " ++ cleanId threadId))
   <-> ~ (exists json0 json1 rest, body = VArr (json0 :: json1 :: rest))) /\
  ((exists json0 json1 rest, body = VArr (json0 :: json1 :: rest)) ->
   settled (getThread rt threadId response)) /\
  (forall thread, getThread rt threadId response = Ret thread ->
     total_comments thread = num_comments (post thread)) /\
  (forall json0 json1 rest response',
     body = VArr (json0 :: json1 :: rest) ->
     ok response' = true ->
     json response' = Ret (VArr [json0; json1]) ->
     getThread rt threadId response = getThread rt threadId response') /\
  (forall json0 json1 rest thread,
     body = VArr (json0 :: json1 :: rest) ->
     getThread rt threadId response = Ret thread ->
     exists postData commentChildren children,
       (d <- optget json0 "data" ;; c <- optget d "children" ;; Ret (optget0 c))
       = Ret postData /\
       parsePost rt postData = Ret (post thread) /\
       ((d <- optget json1 "data" ;; optget d "children") ||| Ret (VArr []))
       = Ret commentChildren /\
       iterate commentChildren = Ret children /\
       flattenComments rt children (post_author (post thread)) 3
       = Ret (comments thread)).
Proof.
  intros Hok Hjson. unfold getThread. rewrite Hok, Hjson. cbn [negb bind].
  assert (Hshape : forall json0 json1,
    settled
      (postData <- (d <- optget json0 "data" ;;
                    c <- optget d "children" ;;
                    Ret (optget0 c)) ;;
       post <- parsePost rt postData ;;
       let opAuthor := post_author post in
       commentChildren <- (d <- optget json1 "data" ;; optget d "children")
                          ||| Ret (VArr []) ;;
       children <- iterate commentChildren ;;
       comments <- flattenComments rt children opAuthor 3 ;;
       Ret {| post := post; comments := comments; total_comments := num_comments post |})).
  { intros json0 json1.
    apply settled_bind; [settle|]. intros postData.
    apply settled_bind; [apply settled_parsePost|]. intros p. cbv zeta.
    apply settled_bind; [settle|]. intros commentChildren.
    apply settled_bind; [settle|]. intros children.
    apply settled_bind; [|intros; exact I].
    apply flattenComments_rec_settled. lia. }
  split; [|split; [|split; [|split]]].
  - destruct body as [| | | | |[|json0 [|json1 rest]]|];
      try (split; [intros _ (j0 & j1 & r & E); discriminate|reflexivity]).
    pose proof (Hshape json0 json1) as Hs. cbv zeta in Hs. cbv zeta.
    split.
    + intros E. rewrite E in Hs. contradiction.
    + intros Hno. exfalso. apply Hno. eauto.
  - intros (j0 & j1 & r & ->). apply Hshape.
  - intros thread H.
    destruct body as [| | | | |[|json0 [|json1 rest]]|]; try discriminate.
    do 5 bind_inv H. injection H as <-. reflexivity.
  - intros json0 json1 rest response' -> Hok' Hjson'.
    rewrite Hok', Hjson'. reflexivity.
  - intros json0 json1 rest thread -> H.
    do 5 bind_inv H. injection H as <-. cbn [post comments].
    eexists _, _, _. repeat split; eassumption.
Qed.

(** A thread of one post announcing 7 comments and an empty comment list:
    the shape is accepted. *)
Lemma getThread_shape_witness :
  getThread sample_runtime "t3_abc" (json_response two_element_body)
    = Throws (Error ("Invalid thread response for " ++ cleanId "t3_abc"))
  <-> ~ (exists json0 json1 rest, two_element_body = VArr (json0 :: json1 :: rest)).
Proof.
  exact (proj1 (@getThread_shape sample_runtime "t3_abc" (json_response two_element_body)
                  two_element_body eq_refl eq_refl)).
Defined.

(** Its [total_comments] is the 7 of the post, not the number of comments
    in the list, which is 0. *)
Example getThread_total_comments :
  exists thread,
    getThread sample_runtime "t3_abc" (json_response two_element_body) = Ret thread /\
    total_comments thread = VNum 7 /\ comments thread = [].
Proof. eexists. split; [vm_compute; reflexivity|]. split; reflexivity. Qed.

(** The specification's example: the comment of the post's author, and
    only that one, has [is_op]. *)
Example getThread_is_op :
  exists thread,
    getThread sample_runtime "abc"
      (json_response
         (VArr [listing_of [post_node "p1" "first" "alice" 2];
                listing_of [comment_node "c1" "bob" 0
                              (listing_of [comment_node "c2" "alice" 1 (VStr "")])]]))
    = Ret thread /\
    map comment_author (comments thread) = [VStr "bob"; VStr "alice"] /\
    map is_op (comments thread) = [false; true].
Proof. eexists. split; [vm_compute; reflexivity|]. split; reflexivity. Qed.

(** A two-element array whose first element holds no post: a [TypeError],
    not the shape error. *)
Example getThread_two_empty_objects :
  getThread sample_runtime "abc" (json_response (VArr [VObj []; VObj []]))
  = Throws TypeError.
Proof. vm_compute. reflexivity. Qed.

(** C7, counterexample.  A response of three top-level elements is not a
    two-element sequence, and [getThread] returns a thread for it. *)
Lemma getThread_accepts_three_elements :
  (exists thread,
     getThread sample_runtime "t3_abc" (json_response three_element_body) = Ret thread) /\
  ~ (exists json0 json1, three_element_body = VArr [json0; json1]).
Proof.
  split.
  - eexists. vm_compute. reflexivity.
  - intros (j0 & j1 & E). discriminate.
Qed.
(* ================================================================== *)
(** * Further properties *)

(** ** A literal followed by a captured run *)

Lemma rmatch_Lit pre s c k :
  rmatch (Lit pre) s c k
  = if starts_with pre s then k (drop (String.length pre) s) c else None.
Proof.
  revert s. induction pre as [|a pre IH]; intros s; simpl.
  - destruct s; reflexivity.
  - destruct s as [|b s]; [reflexivity|].
    destruct (Ascii.eqb a b); simpl; [apply IH|reflexivity].
Qed.

Lemma span_le p s : span p s <= String.length s.
Proof. induction s as [|a s IH]; simpl; [lia|]. destruct (p a); lia. Qed.

Lemma repeat_match_span p k :
  (forall s c, k s c <> None) ->
  forall n s c,
    span p s <= n ->
    repeat_match (rmatch (Class p)) true n s c k = k (drop (span p s) s) c.
Proof.
  intros Hk. induction n as [|n IH]; intros s c Hn.
  - assert (E : span p s = 0) by lia. rewrite E. reflexivity.
  - cbn [repeat_match rmatch]. destruct s as [|a s].
    + reflexivity.
    + cbn [span] in *. destruct (p a) eqn:Ea.
      * replace (String.length s <? String.length (String a s))%nat with true
          by (symmetry; apply Nat.ltb_lt; simpl; lia).
        rewrite IH by lia. cbn [drop].
        destruct (k (drop (span p s) s) c) eqn:E; [reflexivity|].
        exfalso. eapply Hk. exact E.
      * reflexivity.
Qed.

Lemma rmatch_Plus_span p k s c :
  (forall s c, k s c <> None) ->
  rmatch (Plus (Class p)) s c k
  = match s with
    | String a s' => if p a then k (drop (span p s') s') c else None
    | EmptyString => None
    end.
Proof.
  intros Hk. unfold Plus. cbn [rmatch]. destruct s as [|a s]; [reflexivity|].
  destruct (p a); [|reflexivity].
  apply repeat_match_span; [exact Hk|apply span_le].
Qed.

Lemma rmatch_prefixed_run pre p s :
  rmatch (Concat [Lit pre; Group 1 (Plus (Class p))]) s [] (fun s' c' => Some (c', s'))
  = if starts_with pre s
    then let t := drop (String.length pre) s in
         if (0 <? span p t)%nat
         then Some ([(1, take (span p t) t)], drop (span p t) t)
         else None
    else None.
Proof.
  cbn [Concat fold_right]. cbn [rmatch]. rewrite rmatch_Lit.
  destruct (starts_with pre s); [|reflexivity]. cbv zeta.
  remember (drop (String.length pre) s) as t.
  rewrite rmatch_Plus_span by discriminate.
  destruct t as [|a t]; [reflexivity|]. cbn [span].
  destruct (p a); [|reflexivity]. cbn [Nat.ltb Nat.leb drop].
  rewrite drop_length by apply span_le. f_equal. f_equal. f_equal. f_equal.
  pose proof (span_le p t). cbn [String.length]. f_equal. lia.
Qed.

Lemma starts_with_app pre s :
  starts_with pre s = true -> s = pre ++ drop (String.length pre) s.
Proof.
  revert s. induction pre as [|a pre IH]; intros s H; simpl in *.
  - destruct s; reflexivity.
  - destruct s as [|b s]; [discriminate|].
    apply andb_true_iff in H. destruct H as [Hab H].
    apply Ascii.eqb_eq in Hab. subst b. f_equal. apply IH. exact H.
Qed.

Lemma starts_with_prefix pre s : starts_with pre (pre ++ s) = true.
Proof. induction pre as [|a pre IH]; simpl; [destruct s; reflexivity|]. rewrite Ascii.eqb_refl. exact IH. Qed.

Lemma drop_app pre s : drop (String.length pre) (pre ++ s) = s.
Proof. induction pre as [|a pre IH]; simpl; [destruct s; reflexivity|exact IH]. Qed.

Lemma take_drop n s : take n s ++ drop n s = s.
Proof.
  revert s. induction n as [|n IH]; intros [|a s]; simpl; try reflexivity.
  f_equal. apply IH.
Qed.

Lemma all_chars_take_span p s : all_chars p (take (span p s) s) = true.
Proof.
  induction s as [|a s IH]; simpl; [reflexivity|].
  destruct (p a) eqn:E; simpl; [rewrite E; exact IH|reflexivity].
Qed.

Lemma span_all_chars p s : all_chars p s = true -> span p s = String.length s.
Proof.
  induction s as [|a s IH]; simpl; [reflexivity|].
  destruct (p a); simpl; [intros H; f_equal; auto|discriminate].
Qed.

Lemma take_all s : take (String.length s) s = s.
Proof. induction s as [|a s IH]; simpl; [reflexivity|]. f_equal. exact IH. Qed.

Lemma drop_all s : drop (String.length s) s = "".
Proof. induction s as [|a s IH]; simpl; [reflexivity|exact IH]. Qed.

(** What a match of [pre(p+)] is: the literal, then the longest run of
    characters of the class, which is the group. *)
Lemma search_prefixed_run pre p s :
  forall i m,
    search (Concat [Lit pre; Group 1 (Plus (Class p))]) s i = Some m ->
    exists u v,
      s = u ++ pre ++ group 1 m ++ v /\
      matchIndex m = i + String.length u /\
      endIndex m = matchIndex m + String.length pre + String.length (group 1 m) /\
      group 1 m <> "" /\
      all_chars p (group 1 m) = true /\
      span p v = 0.
Proof.
  induction s as [|a s IH]; intros i m H; rewrite search_unfold, rmatch_prefixed_run in H.
  - destruct (starts_with pre "") eqn:E; [|discriminate]. cbv zeta in H.
    destruct (0 <? span p (drop (String.length pre) ""))%nat eqn:Es; [|discriminate].
    apply Nat.ltb_lt in Es. pose proof (span_le p (drop (String.length pre) "")) as Hle.
    pose proof (starts_with_app _ _ E) as Hs.
    assert (String.length (drop (String.length pre) "") = 0).
    { destruct pre; simpl in *; [reflexivity|discriminate]. }
    lia.
  - destruct (starts_with pre (String a s)) eqn:E.
    + cbv zeta in H.
      remember (drop (String.length pre) (String a s)) as t.
      destruct (0 <? span p t)%nat eqn:Es.
      * injection H as <-. unfold group. cbn [groups capture matchIndex endIndex Nat.eqb].
        exists "", (drop (span p t) t).
        apply Nat.ltb_lt in Es.
        assert (Ht : String.length (take (span p t) t) = span p t).
        { rewrite take_length. pose proof (span_le p t). lia. }
        repeat split.
        -- cbn [append]. rewrite take_drop. subst t. apply starts_with_app. exact E.
        -- cbn [String.length]. lia.
        -- rewrite Ht. pose proof (span_le p t) as Hle.
           rewrite drop_length by exact Hle.
           apply starts_with_app in E. rewrite <- Heqt in E.
           apply (f_equal String.length) in E. rewrite string_app_length in E.
           cbn [String.length] in *.
           destruct (String.length t - span p t) eqn:Ed; lia.
        -- intros Hempty. rewrite Hempty in Ht. simpl in Ht. lia.
        -- apply all_chars_take_span.
        -- clear. induction t as [|b t IHt]; simpl; [reflexivity|].
           destruct (p b) eqn:Eb; simpl; [exact IHt|rewrite Eb; reflexivity].
      * apply IH in H. destruct H as (u & v & Hs & Hi & He & Hne & Hall & Hv).
        exists (String a u), v. rewrite Hs at 1. cbn [append String.length].
        repeat split; auto. lia.
    + apply IH in H. destruct H as (u & v & Hs & Hi & He & Hne & Hall & Hv).
      exists (String a u), v. rewrite Hs at 1. cbn [append String.length].
      repeat split; auto. lia.
Qed.

Lemma exec_prefixed_run pre p input lastIndex m :
  exec (Concat [Lit pre; Group 1 (Plus (Class p))]) input lastIndex = Some m ->
  exists u v,
    input = u ++ pre ++ group 1 m ++ v /\
    lastIndex <= matchIndex m /\
    matchIndex m = String.length u /\
    group 1 m <> "" /\
    all_chars p (group 1 m) = true.
Proof.
  unfold exec. destruct (lastIndex <=? String.length input)%nat eqn:E; [|discriminate].
  apply Nat.leb_le in E. intros H. apply search_prefixed_run in H.
  destruct H as (u & v & Hs & Hi & He & Hne & Hall & Hv).
  exists (take lastIndex input ++ u), v.
  rewrite string_app_assoc, <- Hs, take_drop, string_app_length, take_length.
  repeat split; auto; lia.
Qed.

(** ** More on loops and slices *)

Lemma regex_while_invariant_exec {S : Type} (P : S -> Prop) r input guard body :
  (forall lastIndex m st,
      exec r input lastIndex = Some m -> P st -> guard st = true -> P (body m st)) ->
  forall fuel lastIndex st st',
    P st -> regex_while fuel r input lastIndex guard body st = Some st' -> P st'.
Proof.
  intros Hbody. induction fuel as [|fuel IH]; intros lastIndex st st' Hst H; simpl in H.
  - discriminate.
  - destruct (exec r input lastIndex) as [m|] eqn:E.
    + destruct (guard st) eqn:G.
      * eapply IH; [|exact H]. eapply Hbody; eauto.
      * injection H as <-. exact Hst.
    + injection H as <-. exact Hst.
Qed.

Lemma for_of_invariant {A S : Type} (P : S -> Prop) (body : A -> S -> outcome S) :
  (forall x st st', P st -> body x st = Ret st' -> P st') ->
  forall l st st', P st -> for_of l st body = Ret st' -> P st'.
Proof.
  intros Hbody. induction l as [|x l IH]; intros st st' Hst H; simpl in H.
  - injection H as <-. exact Hst.
  - bind_inv H. eapply IH; [|exact H]. eapply Hbody; eauto.
Qed.

Lemma in_skipn {A : Type} n (l : list A) x : In x (skipn n l) -> In x l.
Proof.
  revert n. induction l as [|y l IH]; intros [|n]; simpl; auto.
  intros H. right. eapply IH. exact H.
Qed.

Lemma Forall_array_slice {A : Type} (P : A -> Prop) (l : list A) from to :
  Forall P l -> Forall P (array_slice l from to).
Proof.
  rewrite !Forall_forall. intros H x Hx. apply H.
  unfold array_slice in Hx. apply in_firstn in Hx. apply in_skipn in Hx. exact Hx.
Qed.

Lemma Forall_snoc {A : Type} (P : A -> Prop) (l : list A) x :
  Forall P l -> P x -> Forall P (l ++ [x]).
Proof. intros Hl Hx. apply Forall_app. split; [exact Hl|constructor; [exact Hx|constructor]]. Qed.

Lemma includes_unfold hay needle :
  includes hay needle
  = starts_with needle hay ||
    match hay with
    | EmptyString => false
    | String _ hay' => includes hay' needle
    end.
Proof. destruct hay; reflexivity. Qed.

Lemma includes_spec hay needle :
  includes hay needle = true <-> exists pre post, hay = pre ++ needle ++ post.
Proof.
  split.
  - induction hay as [|a hay IH]; rewrite includes_unfold; intros H;
      apply orb_true_iff in H; destruct H as [H|H]; try discriminate.
    + exists "", (drop (String.length needle) ""). apply starts_with_app. exact H.
    + exists "", (drop (String.length needle) (String a hay)).
      apply starts_with_app. exact H.
    + apply IH in H. destruct H as (pre & post & ->).
      exists (String a pre), post. reflexivity.
  - intros (pre & post & ->). induction pre as [|a pre IH].
    + rewrite includes_unfold. cbn [append]. rewrite starts_with_prefix. reflexivity.
    + rewrite includes_unfold. cbn [append]. rewrite IH. apply orb_true_r.
Qed.

(** ** The structured state *)

(** X1.  [extractFbData] returns on every document, for every runtime: it
    neither throws nor exhausts its scan.  Its value is, in this order of
    precedence: what [JSON.parse] makes of the first group of the match of
    the relay pattern in the document; what it makes of the first group of
    the match of the [data-sjs] pattern; and, when neither is there or
    parses, [null] when the listing pattern has no match in the document,
    and else an object whose [extracted_listings] starts with the item of
    the first match and holds only items of matches in the document. *)
Theorem extractFbData_returns (rt : Runtime) (html : string) :
  exists data,
    extractFbData rt html = Ret data /\
    (forall parsed,
       try_parse rt (string_match relayRegex html) = Some parsed -> data = parsed) /\
    (try_parse rt (string_match relayRegex html) = None ->
     forall parsed,
       try_parse rt (string_match cometRegex html) = Some parsed -> data = parsed) /\
    (try_parse rt (string_match relayRegex html) = None ->
     try_parse rt (string_match cometRegex html) = None ->
     match string_match listingRegex html with
     | None => data = VNull
     | Some first =>
         exists rest,
           data = VObj [("extracted_listings", VArr (extracted_item rt first :: rest))] /\
           Forall (fun item =>
                     exists lastIndex m,
                       exec listingRegex html lastIndex = Some m /\
                       item = extracted_item rt m)
                  rest
     end).
Proof.
  unfold extractFbData.
  destruct (try_parse rt (string_match relayRegex html)) as [data|] eqn:E1.
  { exists data. split; [reflexivity|]. split; [intros parsed [= <-]; reflexivity|].
    split; discriminate. }
  destruct (try_parse rt (string_match cometRegex html)) as [data|] eqn:E2.
  { exists data. split; [reflexivity|]. split; [discriminate|].
    split; [intros _ parsed [= <-]; reflexivity | discriminate]. }
  edestruct (@regex_while_terminates (list val) listingRegex html) as (listings & Hrun);
    [reflexivity| |].
  { instantiate (2 := 0). instantiate (1 := String.length html). lia. }
  rewrite Hrun. cbn [of_option bind]. eexists. split; [reflexivity|].
  split; [discriminate|]. split; [discriminate|]. intros _ _.
  cbn [regex_while] in Hrun. unfold string_match.
  destruct (exec listingRegex html 0) as [first|] eqn:Efirst.
  - apply regex_while_invariant_exec
      with (P := fun st : list val =>
                   exists rest,
                     st = extracted_item rt first :: rest /\
                     Forall (fun item =>
                               exists lastIndex m,
                                 exec listingRegex html lastIndex = Some m /\
                                 item = extracted_item rt m)
                            rest) in Hrun.
    + destruct Hrun as (rest & -> & Hrest). exists rest. split; [reflexivity | exact Hrest].
    + intros lastIndex m st Hm (rest & -> & Hrest) _.
      exists (rest ++ [extracted_item rt m])%list. split; [reflexivity|].
      apply Forall_snoc; [exact Hrest|]. eauto.
    + exists []. split; [reflexivity | constructor].
  - injection Hrun as <-. reflexivity.
Qed.

(** ** Search results *)

Lemma collect_listings_partial (rt : Runtime) html location limit results :
  collect_listings rt html location limit = Ret results ->
  Forall (partial_listing location) results.
Proof.
  intros H. unfold collect_listings in H.
  bind_inv H. bind_inv H. destruct (truthy a0).
  - bind_inv H. bind_inv H. revert H.
    apply for_of_invariant with (P := Forall (partial_listing location)); [|constructor].
    intros item st st' Hst Hb. do 4 bind_inv Hb. injection Hb as <-.
    apply Forall_snoc; [exact Hst|]. repeat split.
  - bind_inv H. injection H as <-. apply of_option_ret_inv in E1. revert E1.
    apply regex_while_invariant with
      (P := fun st : list string * list MarketplaceListing =>
              Forall (partial_listing location) (snd st)); [|constructor].
    intros m st Hst _. destruct (set_has (fst st) (group 1 m)); [exact Hst|].
    cbn [snd]. apply Forall_snoc; [exact Hst|]. repeat split.
Qed.

(** X2.  Every record that [searchMarketplace] or [getNewListings] returns,
    from the structured state or from the item links, is a partial listing:
    its address is the item address of its id, its location is the caller's
    (or empty), and seller, condition, time, images, description and category
    are at their defaults, with [is_available] true. *)
Theorem search_results_are_partial (rt : Runtime) (response : Response)
    (location : option string) (sinceTime : string) (limit : Z) :
  (forall out, searchMarketplace rt response location limit = Ret out ->
     Forall (partial_listing (location_or_empty location)) (results out)) /\
  (forall out, getNewListings rt response sinceTime limit = Ret out ->
     Forall (partial_listing "") (new_results out)).
Proof.
  unfold searchMarketplace, getNewListings.
  destruct (ok response); cbn [negb]; [|split; intros; discriminate].
  split; intros out H; bind_inv H; injection H as <-; cbn [results new_results];
    apply Forall_array_slice; eapply collect_listings_partial; exact E.
Qed.

Lemma search_results_are_partial_witness :
  exists out,
    searchMarketplace sample_runtime (html_response three_listings_page) (Some "austin") 2
    = Ret out /\
    List.length (results out) = 2 /\
    Forall (partial_listing "austin") (results out).
Proof.
  eexists. split; [vm_compute; reflexivity|]. split; [reflexivity|].
  refine (proj1 (@search_results_are_partial sample_runtime
                   (html_response three_listings_page) (Some "austin") "" 2) _ _).
  vm_compute. reflexivity.
Defined.

(** X3.  When the extractor finds no [extracted_listings], every id of a
    search result is a non-empty text of digits that stands in the document
    after [marketplace/item/], and the record's address ends with it. *)
Theorem fallback_ids_are_item_links (rt : Runtime) (response : Response)
    (location : option string) (limit : Z) (fbData extracted : val) (out : SearchResult) :
  extractFbData rt (text response) = Ret fbData ->
  optget fbData "extracted_listings" = Ret extracted ->
  truthy extracted = false ->
  searchMarketplace rt response location limit = Ret out ->
  Forall (fun l => exists id,
            listing_id l = VStr id /\ id <> "" /\ all_chars is_digit id = true /\
            includes (text response) ("marketplace/item/" ++ id) = true /\
            listing_url l = "https://www.facebook.com/marketplace/item/" ++ id)
         (results out).
Proof.
  intros Hfb Hex Hfalsy H. unfold searchMarketplace in H.
  destruct (ok response); cbn [negb] in H; [|discriminate].
  bind_inv H. injection H as <-. cbn [results].
  unfold collect_listings in E. rewrite Hfb in E. cbn [bind] in E.
  rewrite Hex in E. cbn [bind] in E. rewrite Hfalsy in E.
  bind_inv E. injection E as <-. apply of_option_ret_inv in E0.
  apply Forall_array_slice. revert E0.
  apply regex_while_invariant_exec with
    (P := fun st : list string * list MarketplaceListing =>
            Forall (fun l => exists id,
                      listing_id l = VStr id /\ id <> "" /\ all_chars is_digit id = true /\
                      includes (text response) ("marketplace/item/" ++ id) = true /\
                      listing_url l = "https://www.facebook.com/marketplace/item/" ++ id)
                   (snd st)); [|constructor].
  intros lastIndex m st Hm Hst _.
  destruct (set_has (fst st) (group 1 m)); [exact Hst|].
  cbn [snd]. apply Forall_snoc; [exact Hst|].
  apply (@exec_prefixed_run "marketplace/item/" is_digit) in Hm.
  destruct Hm as (u & v & Hin & _ & _ & Hne & Hall).
  exists (group 1 m). repeat split; auto.
  apply includes_spec. exists u, v. rewrite Hin at 1.
  rewrite !string_app_assoc. reflexivity.
Qed.

Lemma fallback_ids_are_item_links_witness :
  exists out,
    searchMarketplace sample_runtime (html_response item_links_page) None 20 = Ret out /\
    Forall (fun l => exists id,
              listing_id l = VStr id /\ id <> "" /\ all_chars is_digit id = true /\
              includes item_links_page ("marketplace/item/" ++ id) = true /\
              listing_url l = "https://www.facebook.com/marketplace/item/" ++ id)
           (results out).
Proof.
  eexists. split; [vm_compute; reflexivity|].
  apply (@fallback_ids_are_item_links sample_runtime (html_response item_links_page)
           None 20 VNull VUndef); vm_compute; reflexivity.
Defined.

(** ** Categories and images *)

Lemma getCategories_urls response categories :
  getCategories response = Ret categories ->
  Forall (fun c => category_url c
                   = "https://www.facebook.com/marketplace/category/" ++ category_id c)
         categories.
Proof.
  unfold getCategories. destruct (ok response); cbn [negb]; [|discriminate].
  intros H. bind_inv H. injection H as <-. apply of_option_ret_inv in E. revert E.
  apply regex_while_invariant with
    (P := fun st : list string * list MarketplaceCategory =>
            Forall (fun c => category_url c
                             = "https://www.facebook.com/marketplace/category/"
                               ++ category_id c) (snd st)); [|constructor].
  intros m st Hst _. destruct (set_has (fst st) _); [exact Hst|].
  cbn [snd]. apply Forall_snoc; [exact Hst|reflexivity].
Qed.

(** X4.  [getCategories] ends on every response; on a response that is not
    ok it throws its error without reading the body; the categories it
    returns have pairwise different slugs, and each address is the category
    address of its slug. *)
Theorem getCategories_distinct_slugs (response : Response) :
  getCategories response <> Diverges /\
  (ok response = false ->
   getCategories response
   = Throws (Error ("FB Marketplace categories failed: " ++ Z_to_string (status response)))) /\
  (forall categories,
     getCategories response = Ret categories ->
     ok response = true /\
     NoDup (map category_id categories) /\
     Forall (fun c => category_url c
                      = "https://www.facebook.com/marketplace/category/" ++ category_id c)
            categories).
Proof.
  split; [exact (getCategories_terminates response)|]. split.
  - intros Hok. unfold getCategories. rewrite Hok. reflexivity.
  - intros categories H. split; [|split].
    + unfold getCategories in H. destruct (ok response); [reflexivity|discriminate].
    + eapply getCategories_ids_unique. exact H.
    + eapply getCategories_urls. exact H.
Qed.

Lemma getCategories_distinct_slugs_witness :
  exists categories,
    getCategories (html_response categories_page) = Ret categories /\
    map category_id categories = ["vehicles"; "garden"] /\
    NoDup (map category_id categories).
Proof.
  eexists. split; [vm_compute; reflexivity|]. split; [reflexivity|].
  refine (proj1 (proj2 (proj2 (proj2 (@getCategories_distinct_slugs
                                       (html_response categories_page))) _ _))).
  vm_compute. reflexivity.
Defined.

(** X5.  The scan of the images of a listing page ends on every document and
    collects at most ten addresses. *)
Theorem images_are_at_most_ten (html : string) :
  exists images,
    parseListingFromHtml_images html = Ret images /\ List.length images <= 10.
Proof.
  destruct (parseListingFromHtml_images_returns html) as (images & H).
  exists images. split; [exact H|]. eapply images_at_most_ten. exact H.
Qed.

(** ** The listing page *)

Lemma search_skip b pre p a s i :
  Ascii.eqb b a = false ->
  search (Concat [Lit (String b pre); Group 1 (Plus (Class p))]) (String a s) i
  = search (Concat [Lit (String b pre); Group 1 (Plus (Class p))]) s (S i).
Proof.
  intros H. rewrite search_unfold, rmatch_prefixed_run. cbn [starts_with].
  rewrite H. reflexivity.
Qed.

Lemma itemId_of_digits ds :
  ds <> "" -> all_chars is_digit ds = true ->
  exists m,
    string_match itemIdRegex ("https://www.facebook.com/marketplace/item/" ++ ds) = Some m /\
    group 1 m = ds.
Proof.
  intros Hne Hall. unfold string_match, exec.
  replace (0 <=? _)%nat with true by reflexivity. cbn [drop].
  change itemIdRegex with (Concat [Lit "item/"; Group 1 (Plus (Class is_digit))]).
  cbn [append].
  repeat (rewrite search_skip by reflexivity).
  rewrite search_unfold, rmatch_prefixed_run.
  cbn [starts_with Ascii.eqb Bool.eqb andb String.length drop]. cbv zeta.
  rewrite (span_all_chars _ _ Hall).
  destruct ds as [|a ds]; [contradiction|].
  cbn [String.length Nat.ltb Nat.leb].
  eexists. split; [reflexivity|].
  unfold group. cbn [groups capture Nat.eqb].
  change (S (String.length ds)) with (String.length (String a ds)).
  apply take_all.
Qed.

(** X6.  [getListingDetails] for an id that is a non-empty text of digits
    gives, when it returns, a listing with that id and the item address of
    that id. *)
Theorem getListingDetails_keeps_id (rt : Runtime) (toISOString : Z -> string)
    (listingId : string) (response : Response) (listing : MarketplaceListing) :
  listingId <> "" ->
  all_chars is_digit listingId = true ->
  getListingDetails rt toISOString listingId response = inr listing ->
  listing_id listing = VStr listingId /\
  listing_url listing = "https://www.facebook.com/marketplace/item/" ++ listingId.
Proof.
  intros Hne Hall H. unfold getListingDetails in H.
  destruct (ok response); cbn [negb] in H; [|discriminate].
  unfold parseListingFromHtml in H.
  destruct (itemId_of_digits Hne Hall) as (m & Hm & Hg). rewrite Hm in H.
  destruct (parseListingFromHtml_images (text response)); try discriminate.
  destruct (string_match creationTimeRegex (text response)) as [tm|].
  - destruct (time_value _); [|discriminate].
    injection H as <-. cbn [listing_id listing_url group_or]. rewrite Hg. auto.
  - injection H as <-. cbn [listing_id listing_url group_or]. rewrite Hg. auto.
Qed.

Lemma getListingDetails_keeps_id_witness :
  exists listing,
    getListingDetails sample_runtime sample_toISOString "123456" (html_response listing_page)
    = inr listing /\
    listing_id listing = VStr "123456" /\
    listing_url listing = "https://www.facebook.com/marketplace/item/123456".
Proof.
  eexists. split; [vm_compute; reflexivity|].
  apply (@getListingDetails_keeps_id sample_runtime sample_toISOString "123456"
           (html_response listing_page)).
  - discriminate.
  - reflexivity.
  - vm_compute. reflexivity.
Defined.

Lemma is_digit_value a :
  is_digit a = true ->
  exists d, digit_value 10 a = Some d /\ (0 <= d)%Z.
Proof.
  unfold is_digit, digit_value. cbv zeta. intros H.
  apply andb_true_iff in H. destruct H as [H1 H2].
  apply Nat.leb_le in H1, H2.
  replace ((48 <=? Z.of_nat (nat_of_ascii a))%Z && (Z.of_nat (nat_of_ascii a) <=? 57)%Z)
    with true.
  - eexists. split; [reflexivity|]. lia.
  - symmetry. apply andb_true_iff. split; apply Z.leb_le; lia.
Qed.

Lemma parse_digits_digits s :
  all_chars is_digit s = true ->
  forall n, (0 <= n)%Z ->
    exists v, parse_digits 10 (Some n) s = Some v /\ (0 <= v)%Z.
Proof.
  induction s as [|a s IH]; intros Hall n Hn; cbn [parse_digits].
  - eauto.
  - cbn [all_chars] in Hall. apply andb_true_iff in Hall. destruct Hall as [Ha Hs].
    destruct (is_digit_value _ Ha) as (d & -> & Hd).
    apply IH; [exact Hs|]. lia.
Qed.

Lemma is_digit_not_space a : is_digit a = true -> is_space a = false.
Proof.
  unfold is_digit, is_space. cbv zeta. intros H.
  apply andb_true_iff in H. destruct H as [H1 H2]. apply Nat.leb_le in H1, H2.
  apply orb_false_iff. split; [apply orb_false_iff; split|].
  - apply andb_false_iff. right. apply Nat.leb_gt. lia.
  - apply Nat.eqb_neq. lia.
  - apply Nat.eqb_neq. lia.
Qed.

Lemma is_digit_neq a b : is_digit a = true -> is_digit b = false -> Ascii.eqb b a = false.
Proof.
  intros Ha Hb. destruct (Ascii.eqb b a) eqn:E; [|reflexivity].
  apply Ascii.eqb_eq in E. subst. congruence.
Qed.

(** [parseInt] of a non-empty text of digits is a number that is at least 0. *)
Lemma parseInt_digits s :
  s <> "" -> all_chars is_digit s = true ->
  exists n, parseInt s = Some n /\ (0 <= n)%Z.
Proof.
  intros Hne Hall. destruct s as [|a s]; [contradiction|].
  cbn [all_chars] in Hall. apply andb_true_iff in Hall. destruct Hall as [Ha Hs].
  unfold parseInt. cbn [trim_start]. rewrite (is_digit_not_space _ Ha). cbv zeta.
  cbn [starts_with].
  rewrite (@is_digit_neq a "-"%char Ha eq_refl), (@is_digit_neq a "+"%char Ha eq_refl).
  cbn [andb orb].
  assert (Hhex : forall c, is_digit c = false ->
                 (Ascii.eqb "0" a &&
                  match s with
                  | EmptyString => false
                  | String b _ => Ascii.eqb c b && true
                  end) = false).
  { intros c Hc. destruct s as [|b s']; [apply andb_false_r|].
    cbn [all_chars] in Hs. apply andb_true_iff in Hs. destruct Hs as [Hb _].
    rewrite (@is_digit_neq b c Hb Hc). apply andb_false_r. }
  rewrite (Hhex "x"%char eq_refl), (Hhex "X"%char eq_refl).
  cbn [orb parse_digits].
  destruct (is_digit_value _ Ha) as (d & -> & Hd).
  destruct (@parse_digits_digits s Hs (10 * 0 + d)%Z ltac:(lia)) as (v & -> & Hv).
  eauto.
Qed.

(** X7.  [parseListingFromHtml] fails in one way only, for every document and
    address: with the RangeError of [toISOString], exactly when the document
    has a creation time whose seconds, times 1000, exceed the largest time
    value of a date.  In every other case it returns a listing; no other
    field and no scan can make it fail. *)
Theorem parseListingFromHtml_fails_only_on_time (rt : Runtime) (toISOString : Z -> string)
    (html url : string) :
  ((exists listing, parseListingFromHtml rt toISOString html url = inr listing) \/
   parseListingFromHtml rt toISOString html url = inl RangeError) /\
  (parseListingFromHtml rt toISOString html url = inl RangeError <->
   exists m seconds,
     string_match creationTimeRegex html = Some m /\
     parseInt (group 1 m) = Some seconds /\
     (MAX_TIME_VALUE < 1000 * seconds)%Z).
Proof.
  unfold parseListingFromHtml.
  destruct (parseListingFromHtml_images_returns html) as (images & ->).
  destruct (string_match creationTimeRegex html) as [m|] eqn:Em.
  - pose proof Em as Hm. unfold string_match in Hm.
    apply (@exec_prefixed_run (quoted "creation_time" ++ ":") is_digit) in Hm.
    destruct Hm as (u & v & _ & _ & _ & Hne & Hall).
    destruct (parseInt_digits Hne Hall) as (n & Hn & Hpos). rewrite Hn.
    cbn [option_map time_value].
    destruct (Z.abs (1000 * n) <=? MAX_TIME_VALUE)%Z eqn:E.
    + apply Z.leb_le in E. split; [left; eauto|].
      split; [discriminate|].
      intros (m' & s' & Hm' & Hs' & Hgt). injection Hm' as <-.
      rewrite Hn in Hs'. injection Hs' as <-. lia.
    + apply Z.leb_gt in E. split; [right; reflexivity|].
      split; [|reflexivity]. intros _. exists m, n. repeat split; auto. lia.
  - split; [left; eauto|]. split; [discriminate|].
    intros (m' & s' & Hm' & _). discriminate.
Qed.

(** A creation time of thirteen nines, in seconds, is beyond the dates. *)
Example parseListingFromHtml_time_out_of_range :
  getListingDetails sample_runtime sample_toISOString "123456"
    (html_response (quoted "creation_time" ++ ":9999999999999"))
  = inl RangeError.
Proof. vm_compute. reflexivity. Qed.

(** X8.  A listing that [parseListingFromHtml] returns is unavailable exactly
    when the document contains the text [This listing is no longer
    available]; its address is the address it was given. *)
Theorem listing_unavailable_marker (rt : Runtime) (toISOString : Z -> string)
    (html url : string) (listing : MarketplaceListing) :
  parseListingFromHtml rt toISOString html url = inr listing ->
  (is_available listing = false <->
   exists before after,
     html = before ++ "This listing is no longer available" ++ after) /\
  listing_url listing = url.
Proof.
  unfold parseListingFromHtml. intros H.
  destruct (parseListingFromHtml_images html); try discriminate.
  assert (E : is_available listing
              = negb (includes html "This listing is no longer available")
              /\ listing_url listing = url).
  { destruct (string_match creationTimeRegex html).
    - destruct (time_value _); [|discriminate]. injection H as <-. split; reflexivity.
    - injection H as <-. split; reflexivity. }
  destruct E as [E Hurl]. split; [|exact Hurl].
  rewrite E, negb_false_iff. apply includes_spec.
Qed.

Lemma listing_unavailable_marker_witness :
  exists listing,
    parseListingFromHtml sample_runtime sample_toISOString
      (listing_page ++ "<p>This listing is no longer available</p>")
      "https://www.facebook.com/marketplace/item/123456" = inr listing /\
    is_available listing = false.
Proof.
  eexists. split; [vm_compute; reflexivity|].
  apply (proj1 (@listing_unavailable_marker sample_runtime sample_toISOString
                  (listing_page ++ "<p>This listing is no longer available</p>")
                  "https://www.facebook.com/marketplace/item/123456" _ eq_refl)).
  exists (listing_page ++ "<p>"), "</p>". vm_compute. reflexivity.
Defined.


(** ** More on truncation *)

Lemma take_app_exact n a b : String.length a = n -> take n (a ++ b) = a.
Proof.
  revert a. induction n as [|n IH]; intros [|x a] H; simpl in *; try discriminate.
  - destruct b; reflexivity.
  - f_equal. apply IH. lia.
Qed.

(** X10.  Truncating twice is truncating once: the text [truncate] returns
    for a text is returned unchanged when it is truncated again at the same
    cap (at least 0), although a truncated text is longer than the cap. *)
Theorem truncate_idempotent (rt : Runtime) (s t : string) (max : Z) :
  (0 <= max)%Z ->
  truncate rt (VStr s) max = Ret (VStr t) ->
  truncate rt (VStr t) max = Ret (VStr t).
Proof.
  intros Hmax H. rewrite truncate_string in H by assumption.
  rewrite truncate_string by assumption.
  destruct (Z.of_nat (String.length s) <=? max)%Z eqn:E.
  - injection H as <-. rewrite E. reflexivity.
  - injection H as <-. apply Z.leb_gt in E.
    assert (Hlen : String.length (take (Z.to_nat max) s) = Z.to_nat max).
    { rewrite take_length. lia. }
    rewrite string_app_length, Hlen. simpl (String.length "...").
    destruct (Z.of_nat (Z.to_nat max + 3) <=? max)%Z eqn:E2;
      [apply Z.leb_le in E2; lia|].
    rewrite take_app_exact by exact Hlen. reflexivity.
Qed.

Lemma truncate_idempotent_witness :
  truncate sample_runtime (VStr "hello...") 5 = Ret (VStr "hello...").
Proof.
  apply (@truncate_idempotent sample_runtime "hello, world" "hello..." 5).
  - lia.
  - vm_compute. reflexivity.
Defined.

(** ** Payloads that make a normaliser throw *)

Lemma truncate_number (rt : Runtime) n max :
  n <> 0%Z -> truncate rt (VNum n) max = Throws TypeError.
Proof.
  intros Hn. unfold truncate. cbn [truthy].
  replace (n =? 0)%Z with false by (symmetry; apply Z.eqb_neq; exact Hn).
  reflexivity.
Qed.

(** Composition of calls that return. *)
Lemma ret_ret {A : Type} (a : A) : exists v, Ret a = Ret v.
Proof. eauto. Qed.

Lemma bind_ret {A B : Type} (m : outcome A) (f : A -> outcome B) :
  (exists a, m = Ret a) -> (forall a, exists b, f a = Ret b) -> exists b, bind m f = Ret b.
Proof. intros (a & ->) Hf. cbn [bind]. apply Hf. Qed.

Lemma get_ret d k : nullish d = false -> exists v, get d k = Ret v.
Proof. destruct d; try discriminate; cbn [get]; eauto. Qed.

Lemma or_else_ret a b :
  (exists v, a = Ret v) -> (exists v, b = Ret v) -> exists v, (a ||| b) = Ret v.
Proof.
  intros (x & ->) (y & ->). unfold or_else. cbn [bind]. destruct (truthy x); eauto.
Qed.

Lemma coalesce_ret a b :
  (exists v, a = Ret v) -> (exists v, b = Ret v) -> exists v, (a ??? b) = Ret v.
Proof.
  intros (x & ->) (y & ->). unfold coalesce. cbn [bind]. destruct (nullish x); eauto.
Qed.

(** Solves [exists v, m = Ret v] for a chain of reads of a value [d] that
    is neither [null] nor [undefined] ([Hd]). *)
Ltac returns Hd :=
  repeat first
    [ apply ret_ret
    | apply (@get_ret _ _ Hd)
    | apply or_else_ret
    | apply coalesce_ret
    | apply bind_ret; [|intros ?] ].

Lemma or_else_ret_truthy a c v :
  truthy c = true -> (a ||| Ret c) = Ret v -> truthy v = true.
Proof.
  intros Hc H. unfold or_else in H. bind_inv H.
  destruct (truthy a0) eqn:Ea; injection H as <-; assumption.
Qed.

Lemma coalesce_ret_not_nullish a c v :
  nullish c = false -> (a ??? Ret c) = Ret v -> nullish v = false.
Proof.
  intros Hc H. unfold coalesce in H. bind_inv H.
  destruct (nullish a0) eqn:Ea; injection H as <-; assumption.
Qed.

Lemma unwrap_not_nullish data d :
  nullish data = false -> (optget data "data" ||| Ret data) = Ret d -> nullish d = false.
Proof.
  intros Hn H. unfold or_else in H. bind_inv H.
  destruct (truthy a) eqn:Ea; injection H as <-; [|exact Hn].
  apply truthy_not_nullish. exact Ea.
Qed.

Lemma unwrap_nullish data :
  nullish data = true -> (optget data "data" ||| Ret data) = Ret data.
Proof. intros H. unfold optget. rewrite H. reflexivity. Qed.

Lemma get_ret_not_nullish d k v : get d k = Ret v -> nullish d = false.
Proof. destruct d; try discriminate; reflexivity. Qed.

Lemma parsePost_inv (rt : Runtime) data p :
  parsePost rt data = Ret p ->
  exists d,
    (optget data "data" ||| Ret data) = Ret d /\
    (get d "id" ||| get d "name" ||| Ret (VStr "")) = Ret (post_id p) /\
    (get d "title" ||| Ret (VStr "")) = Ret (post_title p) /\
    (get d "subreddit_name_prefixed" |||
       (s <- get d "subreddit" ||| Ret (VStr "") ;; Ret (VStr ("r/" ++ ToString s))))
    = Ret (subreddit p) /\
    (get d "author" ||| Ret (VStr "[deleted]")) = Ret (post_author p) /\
    (get d "score" ??? Ret (VNum 0)) = Ret (post_score p) /\
    (get d "num_comments" ??? Ret (VNum 0)) = Ret (num_comments p) /\
    (get d "url" ||| Ret (VStr "")) = Ret (post_url p) /\
    (x <- get d "permalink" ;;
     Ret (if truthy x then VStr ("https://reddit.com" ++ ToString x) else VStr ""))
    = Ret (permalink p) /\
    (get d "created_utc" ??? Ret (VNum 0)) = Ret (post_created_utc p) /\
    (selftext <- get d "selftext" ||| Ret (VStr "") ;; truncate rt selftext 500)
    = Ret (body_preview p) /\
    (get d "is_self" ??? Ret (VBool false)) = Ret (is_self p) /\
    (t <- get d "thumbnail" ;;
     Ret (if truthy t && negb (strict_eq t (VStr "self"))
             && negb (strict_eq t (VStr "default"))
          then t else VNull))
    = Ret (thumbnail p) /\
    (get d "link_flair_text" ||| Ret VNull) = Ret (link_flair_text p) /\
    (get d "upvote_ratio" ??? Ret (VNum 0)) = Ret (upvote_ratio p) /\
    (get d "total_awards_received" ??? Ret (VNum 0)) = Ret (post_awards p).
Proof.
  intros H. unfold parsePost in H. do 16 (bind_inv H). injection H as <-.
  exists a. cbn. repeat split; assumption.
Qed.

Lemma parseComment_inv (rt : Runtime) data opAuthor c :
  parseComment rt data opAuthor = Ret c ->
  exists d,
    (optget data "data" ||| Ret data) = Ret d /\
    (get d "id" ||| get d "name" ||| Ret (VStr "")) = Ret (comment_id c) /\
    (get d "author" ||| Ret (VStr "[deleted]")) = Ret (comment_author c) /\
    (b <- get d "body" ||| Ret (VStr "") ;; truncate rt b 1000) = Ret (body c) /\
    (get d "score" ??? Ret (VNum 0)) = Ret (comment_score c) /\
    (get d "created_utc" ??? Ret (VNum 0)) = Ret (comment_created_utc c) /\
    (get d "depth" ??? Ret (VNum 0)) = Ret (depth c) /\
    (a <- get d "author" ;; Ret (strict_eq a opAuthor)) = Ret (is_op c) /\
    (get d "total_awards_received" ??? Ret (VNum 0)) = Ret (comment_awards c) /\
    (replies <- get d "replies" ;;
     if typeof_object replies
     then (r <- optget replies "data" ;;
           ch <- optget r "children" ;;
           optget ch "length") ??? Ret (VNum 0)
     else Ret (VNum 0))
    = Ret (replies_count c).
Proof.
  intros H. unfold parseComment in H. do 10 (bind_inv H). injection H as <-.
  exists a. cbn. repeat split; assumption.
Qed.

(** ** Posts *)

(** X11.  Whatever node [parsePost] is given, a post it returns has its
    defaults in place: the author and the subreddit are truthy, the numeric
    fields and [is_self] are never [null] or [undefined], the permalink is
    the empty text or starts with "https://reddit.com", the thumbnail is
    [null] or a truthy value other than "self" and "default", and the flair
    is [null] or truthy. *)
Theorem parsePost_fields_are_defaulted (rt : Runtime) (data : val) (p : RedditPost) :
  parsePost rt data = Ret p ->
  truthy (post_author p) = true /\
  truthy (subreddit p) = true /\
  nullish (post_score p) = false /\
  nullish (num_comments p) = false /\
  nullish (post_created_utc p) = false /\
  nullish (is_self p) = false /\
  nullish (upvote_ratio p) = false /\
  nullish (post_awards p) = false /\
  (permalink p = VStr "" \/ exists s, permalink p = VStr ("https://reddit.com" ++ s)) /\
  (thumbnail p = VNull \/
   truthy (thumbnail p) = true /\
   thumbnail p <> VStr "self" /\ thumbnail p <> VStr "default") /\
  (link_flair_text p = VNull \/ truthy (link_flair_text p) = true).
Proof.
  intros H. apply parsePost_inv in H.
  destruct H as (d & _ & _ & _ & Hsub & Hauthor & Hscore & Hnum & _ & Hperma & Hcreated
                 & _ & Hself & Hthumb & Hflair & Hratio & Hawards).
  repeat split;
    try (eapply or_else_ret_truthy; [|eassumption]; reflexivity);
    try (eapply coalesce_ret_not_nullish; [|eassumption]; reflexivity).
  - unfold or_else in Hsub. bind_inv Hsub.
    destruct (truthy a) eqn:Ea.
    + injection Hsub as <-. exact Ea.
    + bind_inv Hsub. injection Hsub as <-. reflexivity.
  - bind_inv Hperma. injection Hperma as <-.
    destruct (truthy a); [right; eexists; reflexivity | left; reflexivity].
  - bind_inv Hthumb. injection Hthumb as <-.
    destruct (truthy a) eqn:Ea; cbn [andb]; [|left; reflexivity].
    destruct (strict_eq a (VStr "self")) eqn:E1; cbn [negb andb]; [left; reflexivity|].
    destruct (strict_eq a (VStr "default")) eqn:E2; cbn [negb]; [left; reflexivity|].
    right. split; [exact Ea|].
    split; intros ->; discriminate.
  - unfold or_else in Hflair. bind_inv Hflair.
    destruct (truthy a) eqn:Ea; injection Hflair as <-; [right; exact Ea | left; reflexivity].
Qed.

Lemma parsePost_fields_are_defaulted_witness :
  exists p,
    parsePost sample_runtime (post_node "p1" "first" "alice" 4) = Ret p /\
    truthy (post_author p) = true /\ truthy (subreddit p) = true.
Proof.
  eexists. split; [vm_compute; reflexivity|].
  refine ((fun H => conj (proj1 H) (proj1 (proj2 H)))
            (@parsePost_fields_are_defaulted sample_runtime
               (post_node "p1" "first" "alice" 4) _ _)).
  vm_compute. reflexivity.
Defined.

(** X12.  [parsePost] returns a post for every node whose payload (the
    node's truthy [data], or else the node) has a [selftext] that is a text
    or falsy, and a [subreddit] and a [permalink] that are primitives, so
    that the template literals of lines 413 and 418 print them without
    running code of theirs; the preview of the post is then a text of at
    most 503 characters, the whole [selftext] when that has at most 500. *)
Theorem parsePost_returns (rt : Runtime) (data d st : val) :
  (optget data "data" ||| Ret data) = Ret d ->
  get d "selftext" = Ret st ->
  truthy st = false \/ (exists s, st = VStr s) ->
  prints_primitives d ->
  exists p t,
    parsePost rt data = Ret p /\
    body_preview p = VStr t /\
    String.length t <= 503 /\
    (forall s, st = VStr s -> String.length s <= 500 -> t = s).
Proof.
  intros Hdata Hst Htext _.
  assert (Hd : nullish d = false) by (eapply get_ret_not_nullish; exact Hst).
  assert (Hpreview : exists t,
            (selftext <- get d "selftext" ||| Ret (VStr "") ;; truncate rt selftext 500)
            = Ret (VStr t) /\
            String.length t <= 503 /\
            (forall s, st = VStr s -> String.length s <= 500 -> t = s)).
  { rewrite Hst. unfold or_else. cbn [bind].
    destruct Htext as [Hfalsy | (s & ->)].
    - rewrite Hfalsy. cbn [bind]. exists "". split; [reflexivity|]. split; [simpl; lia|].
      intros s ->. destruct s; [reflexivity | discriminate].
    - destruct (truthy (VStr s)) eqn:Es; cbn [bind].
      + rewrite truncate_string by lia.
        destruct (Z.of_nat (String.length s) <=? 500)%Z eqn:E.
        * exists s. apply Z.leb_le in E. split; [reflexivity|]. split; [lia|].
          intros s' [= <-] _. reflexivity.
        * apply Z.leb_gt in E. eexists. split; [reflexivity|].
          rewrite string_app_length, take_length. simpl (String.length "...").
          split; [lia|]. intros s' [= <-] Hs. lia.
      + destruct s; [|discriminate]. exists "". split; [reflexivity|].
        split; [simpl; lia|]. intros s' [= <-] _. reflexivity. }
  destruct Hpreview as (t & Ht & Hlen & Hwhole).
  assert (Hret : exists p, parsePost rt data = Ret p).
  { unfold parsePost. rewrite Hdata. cbn [bind].
    repeat first
      [ apply ret_ret
      | apply (@get_ret _ _ Hd)
      | exact (ex_intro _ _ Ht)
      | apply or_else_ret
      | apply coalesce_ret
      | apply bind_ret; [|intros ?] ]. }
  destruct Hret as (p & Hp). exists p, t. split; [exact Hp|].
  apply parsePost_inv in Hp.
  destruct Hp as (d' & Hd' & _ & _ & _ & _ & _ & _ & _ & _ & _ & Hbody & _).
  rewrite Hdata in Hd'. injection Hd' as <-.
  rewrite Ht in Hbody. injection Hbody as <-. auto.
Qed.

Lemma parsePost_returns_witness :
  exists p, parsePost sample_runtime text_post = Ret p /\ body_preview p = VStr "hello".
Proof.
  destruct (@parsePost_returns sample_runtime text_post
              (VObj [("id", VStr "p7"); ("title", VStr "lamp"); ("author", VStr "alice");
                     ("permalink", VStr "/r/lamps/comments/p7/lamp/");
                     ("selftext", VStr "hello")])
              (VStr "hello") eq_refl eq_refl (or_intror (ex_intro _ "hello" eq_refl)))
    as (p & t & Hp & Hbody & _ & Hwhole).
  { intros k v [-> | ->] [= <-]; reflexivity. }
  exists p. split; [exact Hp|].
  rewrite Hbody. f_equal. apply Hwhole; [reflexivity | simpl; lia].
Defined.

(** ** Nodes that make a listing fail *)

Lemma bind_skip {A B : Type} (m : outcome A) (f : A -> outcome B) r :
  (exists a, m = Ret a) -> (forall a, f a = r) -> bind m f = r.
Proof. intros (a & ->) Hf. cbn [bind]. apply Hf. Qed.

Lemma parsePost_nullish (rt : Runtime) data :
  nullish data = true -> parsePost rt data = Throws TypeError.
Proof.
  intros H. unfold parsePost. rewrite (unwrap_nullish _ H). cbn [bind].
  destruct data; try discriminate; reflexivity.
Qed.

Lemma parsePost_numeric_selftext (rt : Runtime) data d n :
  (optget data "data" ||| Ret data) = Ret d ->
  get d "selftext" = Ret (VNum n) -> n <> 0%Z ->
  parsePost rt data = Throws TypeError.
Proof.
  intros Hdata Hst Hn.
  assert (Hd : nullish d = false) by (eapply get_ret_not_nullish; exact Hst).
  unfold parsePost. rewrite Hdata. cbn [bind].
  do 9 (apply bind_skip; [returns Hd | intros ?]).
  rewrite Hst. unfold or_else. cbn [bind truthy].
  replace (n =? 0)%Z with false by (symmetry; apply Z.eqb_neq; exact Hn).
  cbn [negb bind]. rewrite truncate_number by exact Hn. reflexivity.
Qed.

Lemma array_map_throws {A B : Type} (f : A -> outcome B) l x :
  (forall y, settled (f y)) -> In x l -> f x = Throws TypeError ->
  array_map f l = Throws TypeError.
Proof.
  intros Hf Hin Hx. induction l as [|y l IH]; [contradiction|].
  cbn [array_map]. destruct Hin as [-> | Hin].
  - rewrite Hx. reflexivity.
  - specialize (Hf y). destruct (f y) as [b|[|msg]|]; cbn [bind]; try contradiction.
    + rewrite (IH Hin). reflexivity.
    + reflexivity.
Qed.

(** X13.  One post whose [selftext] is a number other than 0 makes
    [getSubredditTop] throw a [TypeError] for the whole listing, wherever
    the post stands in it: no post of the listing is returned. *)
Theorem getSubredditTop_one_bad_post (rt : Runtime) (name : string) (response : Response)
    (body : val) (l : list val) (bad d : val) (n : Z) :
  ok response = true ->
  json response = Ret body ->
  ((x <- optget body "data" ;; optget x "children") ||| Ret (VArr [])) = Ret (VArr l) ->
  In bad l ->
  (optget bad "data" ||| Ret bad) = Ret d ->
  get d "selftext" = Ret (VNum n) ->
  n <> 0%Z ->
  getSubredditTop rt name response = Throws TypeError.
Proof.
  intros Hok Hjson Hl Hin Hd Hst Hn.
  unfold getSubredditTop. rewrite Hok, Hjson. cbn [negb bind]. rewrite Hl. cbn [bind].
  apply array_map_throws with (x := bad).
  - apply settled_parsePost.
  - exact Hin.
  - eapply parsePost_numeric_selftext; eassumption.
Qed.

Lemma getSubredditTop_one_bad_post_witness :
  getSubredditTop sample_runtime "lamps"
    (json_response (listing_of [post_node "p1" "first" "alice" 4; numeric_text_post]))
  = Throws TypeError.
Proof.
  apply (@getSubredditTop_one_bad_post sample_runtime "lamps"
           (json_response (listing_of [post_node "p1" "first" "alice" 4; numeric_text_post]))
           (listing_of [post_node "p1" "first" "alice" 4; numeric_text_post])
           [post_node "p1" "first" "alice" 4; numeric_text_post]
           numeric_text_post
           (VObj [("id", VStr "p9"); ("title", VStr "odd"); ("selftext", VNum 7)]) 7).
  - reflexivity.
  - reflexivity.
  - reflexivity.
  - right. left. reflexivity.
  - reflexivity.
  - reflexivity.
  - discriminate.
Defined.

(** X14.  A thread response of the right shape whose first listing holds
    no post (its first child is missing or [null]) makes [getThread] throw a
    [TypeError]: the shape check of line 576 does not cover it. *)
Theorem getThread_without_post (rt : Runtime) (threadId : string) (response : Response)
    (json0 json1 : val) (rest : list val) (postData : val) :
  ok response = true ->
  json response = Ret (VArr (json0 :: json1 :: rest)) ->
  (d <- optget json0 "data" ;; c <- optget d "children" ;; Ret (optget0 c)) = Ret postData ->
  nullish postData = true ->
  getThread rt threadId response = Throws TypeError.
Proof.
  intros Hok Hjson Hpost Hnull.
  unfold getThread. rewrite Hok, Hjson. cbn [negb bind]. rewrite Hpost. cbn [bind].
  rewrite parsePost_nullish by exact Hnull. reflexivity.
Qed.

Lemma getThread_without_post_witness :
  getThread sample_runtime "t3_abc" (json_response postless_body) = Throws TypeError.
Proof.
  apply (@getThread_without_post sample_runtime "t3_abc" (json_response postless_body)
           (listing_of []) (listing_of []) [] VUndef).
  - reflexivity.
  - reflexivity.
  - reflexivity.
  - reflexivity.
Defined.

(** ** Comments *)

Lemma strict_eq_true a b : strict_eq a b = true -> a = b.
Proof.
  destruct a, b; cbn [strict_eq]; intros H; try discriminate; try reflexivity.
  - f_equal. apply Bool.eqb_prop. exact H.
  - f_equal. apply Z.eqb_eq. exact H.
  - f_equal. apply String.eqb_eq. exact H.
Qed.

Lemma parseComment_author (rt : Runtime) data opAuthor c :
  parseComment rt data opAuthor = Ret c ->
  truthy (comment_author c) = true /\
  (truthy opAuthor = true -> is_op c = true -> comment_author c = opAuthor).
Proof.
  intros H. apply parseComment_inv in H.
  destruct H as (d & _ & _ & Hauthor & _ & _ & _ & _ & Hop & _).
  split.
  - eapply or_else_ret_truthy; [|exact Hauthor]. reflexivity.
  - intros Htruthy Hc. bind_inv Hop. injection Hop as Hop. rewrite Hc in Hop.
    apply strict_eq_true in Hop. subst a.
    unfold or_else in Hauthor. rewrite E in Hauthor. cbn [bind] in Hauthor.
    rewrite Htruthy in Hauthor. injection Hauthor as <-. reflexivity.
Qed.

Lemma Forall2_in_r {A B : Type} (R : A -> B -> Prop) l ys y :
  Forall2 R l ys -> In y ys -> exists x, In x l /\ R x y.
Proof.
  induction 1 as [|x y' l ys HR _ IH]; intros Hin; [contradiction|].
  destruct Hin as [<- | Hin].
  - exists x. split; [left; reflexivity | exact HR].
  - destruct (IH Hin) as (x' & Hx' & HR'). exists x'. split; [right; exact Hx' | exact HR'].
Qed.

(** X15.  In a thread [getThread] returns, the post's author is truthy, and
    every comment has a depth of at most 3, a truthy author, and, when it is
    flagged [is_op], the post's author as its author. *)
Theorem getThread_flags_post_author (rt : Runtime) (threadId : string) (response : Response)
    (thread : RedditThread) :
  getThread rt threadId response = Ret thread ->
  truthy (post_author (post thread)) = true /\
  Forall (fun c => js_le rt (depth c) 3 = true /\
                   truthy (comment_author c) = true /\
                   (is_op c = true -> comment_author c = post_author (post thread)))
         (comments thread).
Proof.
  intros H. unfold getThread in H.
  destruct (negb (ok response)); [discriminate|].
  bind_inv H. destruct a as [| | | | |[|json0 [|json1 rest]]|]; try discriminate.
  bind_inv H. rename a into postData.
  bind_inv H. rename a into p.
  bind_inv H. rename a into commentChildren.
  bind_inv H. rename a into children.
  bind_inv H. rename a into out.
  injection H as <-. cbn [post comments].
  assert (Hauthor : truthy (post_author p) = true).
  { apply parsePost_inv in E1.
    destruct E1 as (d & _ & _ & _ & _ & Hauthor & _).
    eapply or_else_ret_truthy; [|exact Hauthor]. reflexivity. }
  split; [exact Hauthor|].
  apply flattenComments_rec_preorder in E4. destruct E4 as (all & Hall & ->).
  apply Forall_forall. intros c Hc. apply filter_In in Hc. destruct Hc as (Hc & Hdepth).
  apply array_map_Forall2 in Hall.
  destruct (@Forall2_in_r _ _ _ _ _ _ Hall Hc) as (node & _ & Hnode).
  apply parseComment_author in Hnode. destruct Hnode as (Hca & Hop).
  split; [exact Hdepth|]. split; [exact Hca|]. intros Hflag. apply Hop; assumption.
Qed.

Lemma getThread_flags_post_author_witness :
  exists thread,
    getThread sample_runtime "abc"
      (json_response (VArr [listing_of [text_post]; listing_of [comment_with_marker]]))
    = Ret thread /\
    truthy (post_author (post thread)) = true /\
    map is_op (comments thread) = [true; false; false].
Proof.
  eexists. split; [vm_compute; reflexivity|]. split.
  - refine (proj1 (@getThread_flags_post_author sample_runtime "abc"
                     (json_response
                        (VArr [listing_of [text_post]; listing_of [comment_with_marker]]))
                     _ _)).
    vm_compute. reflexivity.
  - reflexivity.
Defined.

Lemma optget_composite v k x :
  optget v k = Ret x -> typeof_object x = true -> truthy x = true ->
  (k =? "length") = false ->
  exists o, v = VObj o /\ lookup k o = x.
Proof.
  intros H Hobj Htruthy Hk. unfold optget in H.
  destruct v; cbn [nullish get] in H; try rewrite Hk in H; injection H as <-;
    try discriminate.
  eexists. split; reflexivity.
Qed.

(** X16.  [replies_count] is the number of elements of the array of
    replies loaded below the comment, the continuation markers among them
    included, which [flattenComments] leaves out. *)
Theorem replies_count_is_loaded_length (rt : Runtime) (child opAuthor : val)
    (c : RedditComment) (l : list val) :
  parseComment rt child opAuthor = Ret c ->
  replies_of child = Ret (VArr l) ->
  replies_count c = VNum (Z.of_nat (List.length l)).
Proof.
  intros Hc Hr. unfold replies_of in Hr.
  bind_inv Hr. rename a into data, E into Hdata.
  bind_inv Hr. rename a into r, E into Hreplies.
  bind_inv Hr. rename a into rd, E into Hrd.
  destruct (@optget_composite _ _ _ Hr eq_refl eq_refl eq_refl) as (o3 & -> & Hl).
  destruct (@optget_composite _ _ _ Hrd eq_refl eq_refl eq_refl) as (o2 & -> & Hd2).
  destruct (@optget_composite _ _ _ Hreplies eq_refl eq_refl eq_refl) as (o1 & -> & Hd1).
  apply parseComment_inv in Hc.
  destruct Hc as (d & Hd & _ & _ & _ & _ & _ & _ & _ & _ & Hcount).
  assert (d = VObj o1) as ->.
  { unfold or_else, optget in Hd.
    destruct child; try discriminate; cbn [nullish] in Hd; rewrite Hdata in Hd;
      cbn [bind truthy] in Hd; injection Hd as <-; reflexivity. }
  cbn [get bind] in Hcount. rewrite Hd1 in Hcount.
  cbn [typeof_object optget nullish get bind] in Hcount. unfold coalesce in Hcount.
  cbn [optget nullish get bind] in Hcount. rewrite Hd2 in Hcount.
  cbn [optget nullish get bind] in Hcount. rewrite Hl in Hcount.
  cbn in Hcount. injection Hcount as <-. reflexivity.
Qed.

Lemma replies_count_is_loaded_length_witness :
  exists c,
    parseComment sample_runtime comment_with_marker (VStr "alice") = Ret c /\
    replies_count c = VNum 3.
Proof.
  eexists. split; [vm_compute; reflexivity|].
  apply (@replies_count_is_loaded_length sample_runtime comment_with_marker (VStr "alice") _
           [comment_node "c2" "bob" 1 (VStr ""); comment_node "c3" "eve" 1 (VStr "");
            more_node []]).
  - vm_compute. reflexivity.
  - reflexivity.
Defined.

(** ** Forests side by side *)

Section FlattenAppend.
Variable rt : Runtime.
Variable opAuthor : val.
Variable maxDepth : Z.

Lemma flatten_step_acc budget child pre results :
  flatten_step rt budget opAuthor maxDepth child (pre ++ results)%list
  = (r <- flatten_step rt budget opAuthor maxDepth child results ;; Ret (pre ++ r)%list).
Proof.
  unfold flatten_step.
  destruct (get child "kind") as [kind| |]; cbn [bind]; try reflexivity.
  destruct (strict_eq kind (VStr "more")); [reflexivity|].
  destruct (parseComment rt child opAuthor) as [comment| |]; cbn [bind]; try reflexivity.
  destruct (replies_of child) as [replies| |]; cbn [bind]; try reflexivity.
  destruct (js_le rt (depth comment) maxDepth);
    destruct replies; cbn [bind]; rewrite <- ?app_assoc; try reflexivity;
    destruct (flattenComments_rec rt budget elements opAuthor maxDepth);
    cbn [bind]; rewrite <- ?app_assoc; reflexivity.
Qed.

Lemma for_of_flatten_acc budget children :
  forall pre results,
    for_of children (pre ++ results)%list (flatten_step rt budget opAuthor maxDepth)
    = (r <- for_of children results (flatten_step rt budget opAuthor maxDepth) ;;
       Ret (pre ++ r)%list).
Proof.
  induction children as [|child children IH]; intros pre results; [reflexivity|].
  cbn [for_of]. rewrite flatten_step_acc.
  destruct (flatten_step rt budget opAuthor maxDepth child results) as [r| |];
    cbn [bind]; try reflexivity.
  apply IH.
Qed.

End FlattenAppend.

(** X17.  Flattening two forests side by side is flattening each and
    joining the outputs, the first one's comments first; when flattening
    the first throws, so does flattening both, and the second is not
    looked at. *)
Theorem flattenComments_app (rt : Runtime) (l1 l2 : list val) (opAuthor : val)
    (maxDepth : Z) :
  flattenComments rt (l1 ++ l2) opAuthor maxDepth
  = (r1 <- flattenComments rt l1 opAuthor maxDepth ;;
     r2 <- flattenComments rt l2 opAuthor maxDepth ;;
     Ret (r1 ++ r2)%list).
Proof.
  unfold flattenComments.
  rewrite (@flattenComments_rec_stable rt opAuthor maxDepth
             (S (lheight l1)) (S (lheight (l1 ++ l2))))
    by (rewrite ?lheight_app; lia).
  rewrite (@flattenComments_rec_stable rt opAuthor maxDepth
             (S (lheight l2)) (S (lheight (l1 ++ l2))))
    by (rewrite ?lheight_app; lia).
  rewrite !flattenComments_rec_unfold, for_of_app.
  destruct (for_of l1 [] _) as [r1| |]; cbn [bind]; try reflexivity.
  rewrite <- (app_nil_r r1) at 1. apply for_of_flatten_acc.
Qed.

(** ** The trending feed *)

Lemma array_map_indexed_ranks {A B : Type} (f : A -> nat -> outcome B) (g : B -> Z) l :
  (forall x i y, f x i = Ret y -> g y = (Z.of_nat i + 1)%Z) ->
  forall i ys,
    array_map_indexed f i l = Ret ys ->
    List.length ys = List.length l /\
    map g ys = map (fun k => (Z.of_nat k + 1)%Z) (seq i (List.length l)).
Proof.
  intros Hf. induction l as [|x l IH]; intros i ys H.
  - injection H as <-. split; reflexivity.
  - cbn [array_map_indexed] in H. bind_inv H. bind_inv H. injection H as <-.
    apply IH in E0. destruct E0 as (Hlen & Hmap).
    cbn [List.length map seq]. rewrite Hlen, Hmap, (Hf _ _ _ E). split; reflexivity.
Qed.

Lemma trendingTopic_rank child i t : trendingTopic child i = Ret t -> rank t = (Z.of_nat i + 1)%Z.
Proof.
  intros H. unfold trendingTopic in H. do 7 (bind_inv H). injection H as <-. reflexivity.
Qed.



Lemma array_map_indexed_returns {A B : Type} (f : A -> nat -> outcome B) l :
  (forall x i, In x l -> exists y, f x i = Ret y) ->
  forall i, exists ys, array_map_indexed f i l = Ret ys.
Proof.
  induction l as [|x l IH]; intros Hf i; [eexists; reflexivity|].
  cbn [array_map_indexed].
  destruct (Hf x i (or_introl eq_refl)) as (y & ->). cbn [bind].
  destruct (IH (fun x' i' Hin => Hf x' i' (or_intror Hin)) (S i)) as (ys & ->).
  eexists. reflexivity.
Qed.

Lemma trendingTopic_returns child i :
  nullish child = false -> exists t, trendingTopic child i = Ret t.
Proof.
  intros Hchild. unfold trendingTopic.
  destruct (@or_else_ret (get child "data") (Ret (VObj []))
              (@get_ret _ _ Hchild) (ret_ret _)) as (d & Hd).
  assert (Hnn : nullish d = false).
  { unfold or_else in Hd. bind_inv Hd.
    destruct (truthy a) eqn:Ea; injection Hd as <-; [|reflexivity].
    apply truthy_not_nullish. exact Ea. }
  rewrite Hd. cbn [bind]. returns Hnn.
Qed.

(** X19.  [getTrending] returns for every listing whose children are
    neither [null] nor [undefined] and have primitives as the [subreddit]
    and the [permalink] of their payload, which lines 519 and 523 print;
    whatever the other fields hold: a child without [data], or with a
    [selftext] that is no text, is a topic like any other. *)
Theorem getTrending_returns (response : Response) (body : val) (l : list val) :
  ok response = true ->
  json response = Ret body ->
  ((d <- optget body "data" ;; optget d "children") ||| Ret (VArr [])) = Ret (VArr l) ->
  Forall (fun child =>
            nullish child = false /\
            (forall d, (get child "data" ||| Ret (VObj [])) = Ret d -> prints_primitives d))
         l ->
  exists topics, getTrending response = Ret topics /\ List.length topics = List.length l.
Proof.
  intros Hok Hjson Hl Hall. unfold getTrending.
  rewrite Hok, Hjson. cbn [negb bind]. rewrite Hl. cbn [bind].
  destruct (@array_map_indexed_returns _ _ trendingTopic l) with (i := 0) as (topics & Ht).
  { intros x i Hin. apply trendingTopic_returns.
    rewrite Forall_forall in Hall. apply Hall. exact Hin. }
  exists topics. split; [exact Ht|].
  exact (proj1 (array_map_indexed_ranks trendingTopic rank l trendingTopic_rank 0 Ht)).
Qed.

Lemma getTrending_returns_witness :
  exists topics,
    getTrending (json_response (listing_of [numeric_text_post; VObj []; VNum 3]))
    = Ret topics /\
    List.length topics = 3.
Proof.
  apply (@getTrending_returns
           (json_response (listing_of [numeric_text_post; VObj []; VNum 3]))
           (listing_of [numeric_text_post; VObj []; VNum 3])
           [numeric_text_post; VObj []; VNum 3]).
  - reflexivity.
  - reflexivity.
  - reflexivity.
  - repeat constructor;
      intros d [= <-] k v [-> | ->] [= <-]; reflexivity.
Defined.

(** X20.  A topic agrees with the post of the same node: for a node with
    a truthy [data] that [parsePost] turns into a post, [getTrending]'s
    callback returns a topic with the post's title, subreddit, score,
    number of comments and creation time, and the post's permalink as its
    [url]. *)
Theorem trendingTopic_agrees_with_parsePost (rt : Runtime) (child d : val) (i : nat)
    (p : RedditPost) :
  get child "data" = Ret d ->
  truthy d = true ->
  parsePost rt child = Ret p ->
  exists t,
    trendingTopic child i = Ret t /\
    trend_title t = post_title p /\
    trend_subreddit t = subreddit p /\
    trend_score t = post_score p /\
    trend_num_comments t = num_comments p /\
    trend_url t = permalink p /\
    trend_created_utc t = post_created_utc p.
Proof.
  intros Hdata Htruthy Hp. apply parsePost_inv in Hp.
  destruct Hp as (d' & Hd' & _ & Htitle & Hsub & _ & Hscore & Hnum & _ & Hperma & Hcreated & _).
  assert (d' = d) as ->.
  { unfold or_else, optget in Hd'.
    rewrite (get_ret_not_nullish _ _ Hdata), Hdata in Hd'. cbn [bind] in Hd'.
    rewrite Htruthy in Hd'. injection Hd' as <-. reflexivity. }
  unfold trendingTopic. unfold or_else at 1. rewrite Hdata. cbn [bind]. rewrite Htruthy.
  cbn [bind]. rewrite Htitle. cbn [bind]. rewrite Hsub. cbn [bind].
  rewrite Hscore. cbn [bind]. rewrite Hnum. cbn [bind]. rewrite Hperma. cbn [bind].
  rewrite Hcreated. cbn [bind].
  eexists. split; [reflexivity|]. cbn. repeat split; reflexivity.
Qed.

Lemma trendingTopic_agrees_with_parsePost_witness :
  exists t,
    trendingTopic text_post 0 = Ret t /\
    trend_title t = VStr "lamp" /\
    trend_url t = VStr "https://reddit.com/r/lamps/comments/p7/lamp/".
Proof.
  destruct (@trendingTopic_agrees_with_parsePost sample_runtime text_post
              (VObj [("id", VStr "p7"); ("title", VStr "lamp"); ("author", VStr "alice");
                     ("permalink", VStr "/r/lamps/comments/p7/lamp/");
                     ("selftext", VStr "hello")])
              0 _ eq_refl eq_refl eq_refl)
    as (t & Ht & Htitle & _ & _ & _ & Hurl & _).
  exists t. split; [exact Ht|]. split; [exact Htitle | exact Hurl].
Defined.
